(** * nakama-snake: score persistence, leaderboard and statistics

    A shallow embedding of the backend of the snake game
    ([backend/app/schemas.py], [models.py], [database.py],
    [routers/scores.py]) and the properties of its three endpoints.

    Conventions of the embedding.
    - Python integers are [Z] (unbounded); capacity limits of the storage
      engine are outside the model.
    - A Python [str] is a [string]; its length is [String.length].
    - A Python [float] is a binary64 number, module [F64] below.
    - The table [scores] is the list of its rows in rowid order, which is
      the order of insertion: the engine configured in [database.py] is
      SQLite and [Score.id] is its integer primary key.
    - A handler runs in a request-scoped session ([get_db]); the session
      is a state that every database call threads, and an exception leaves
      the state as it was when it was raised. *)

From Stdlib Require Import ZArith List String Ascii Bool Lia.
From Stdlib Require Import QArith Qabs DecimalString DecimalPos DecimalZ.
From Stdlib Require Import Sorting.Sorted Sorting.Permutation.
Import ListNotations.

Local Open Scope Z_scope.

(* ===================================================================== *)
(** ** Binary64 numbers *)
(* ===================================================================== *)

(** The only floating-point values the program computes are the quotient
    [avg(score)] and its rounding to one decimal.  A finite double is kept
    as [mant * 2 ^ expo] with [2^52 <= |mant| < 2^53], or [0 * 2^0]; every
    value met here is in the normal range.  The sign of zero is not
    represented. *)
Module F64.

Record t : Type := mk { mant : Z; expo : Z }.

Definition zero : t := mk 0 0.

Definition eqb (x y : t) : bool :=
  (mant x =? mant y) && (expo x =? expo y).

Definition is_zero (x : t) : bool := mant x =? 0.

(** The integer nearest to [num / den] ([0 < den]), an exact half going to
    the even neighbour. *)
Definition rne_div (num den : Z) : Z :=
  let q := num / den in
  let r := num mod den in
  match 2 * r ?= den with
  | Lt => q
  | Gt => q + 1
  | Eq => if Z.even q then q else q + 1
  end.

(** [num / den] scaled by [2 ^ (- e)], as a fraction. *)
Definition scaled (a den e : Z) : Z * Z :=
  if 0 <=? e then (a, den * 2 ^ e) else (a * 2 ^ (- e), den).

(** The exponent that puts [a / den] into [[2^52, 2^53)]. *)
Definition exponent_of (a den : Z) : Z :=
  let e0 := Z.log2 a - Z.log2 den - 52 in
  let '(n, d) := scaled a den e0 in
  if n / d <? 2 ^ 52 then e0 - 1 else e0.

(** The double nearest to [num / den] ([0 < den]), ties to even. *)
Definition of_frac (num den : Z) : t :=
  if num =? 0 then zero
  else
    let a := Z.abs num in
    let e := exponent_of a den in
    let '(n, d) := scaled a den e in
    let m := rne_div n d in
    if m =? 2 ^ 53 then mk (Z.sgn num * 2 ^ 52) (e + 1)
    else mk (Z.sgn num * m) e.

Definition of_Z (z : Z) : t := of_frac z 1.

(** The value of [x] as the fraction [fst / snd], [0 < snd]. *)
Definition to_frac (x : t) : Z * Z :=
  if 0 <=? expo x then (mant x * 2 ^ expo x, 1)
  else (mant x, 2 ^ (- expo x)).


(** The quotient [x / y] of two doubles; [None] when [y] is zero. *)
Definition div (x y : t) : option t :=
  if is_zero y then None
  else
    let '(nx, dx) := to_frac x in
    let '(ny, dy) := to_frac y in
    Some (of_frac (Z.sgn ny * nx * dy) (dx * Z.abs ny)).

(** The number of tenths Python's [round(x, 1)] keeps: the exact decimal
    value of [x] is rounded to one place, an exact half to the even
    digit. *)
Definition tenths (x : t) : Z :=
  let '(n, d) := to_frac x in rne_div (10 * n) d.

(** [round(x, 1)]: the double nearest to that decimal. *)
Definition round1 (x : t) : t := of_frac (tenths x) 10.

(** The double written [n / 10] in decimal, such as [20.0] or [0.3]. *)
Definition of_tenths (n : Z) : t := of_frac n 10.

End F64.

(* ===================================================================== *)
(** ** Data model ([models.py], [schemas.py]) *)
(* ===================================================================== *)

(** A [datetime] is a point on the server clock. *)
Definition datetime : Type := Z.

(** A row of the table [scores] ([models.Score], every column
    [nullable=False]). *)
Record Score : Type := mkScore {
  id : Z;
  player_name : string;
  score : Z;
  snake_length : Z;
  duration_seconds : Z;
  created_at : datetime
}.

(** A [models.Score] instance on the Python side.  Until the flush the
    attributes the database fills are absent, and [player_name] is [None]
    when the request said [null]. *)
Record ScoreObj : Type := mkScoreObj {
  o_id : option Z;
  o_player_name : option string;
  o_score : Z;
  o_snake_length : Z;
  o_duration_seconds : Z;
  o_created_at : option datetime
}.

(** The JSON body of [POST /api/scores] before validation: a field is
    absent ([None]) or present; [player_name] may be present as [null]. *)
Record ScoreBody : Type := mkScoreBody {
  b_score : option Z;
  b_snake_length : option Z;
  b_duration_seconds : option Z;
  b_player_name : option (option string)
}.

(** [schemas.ScoreCreate]: the validated request. *)
Record ScoreCreate : Type := mkScoreCreate {
  sc_score : Z;
  sc_snake_length : Z;
  sc_duration_seconds : Z;
  sc_player_name : option string
}.

(** [schemas.ScoreResponse]. *)
Record ScoreResponse : Type := mkScoreResponse {
  r_id : Z;
  r_player_name : string;
  r_score : Z;
  r_snake_length : Z;
  r_duration_seconds : Z;
  r_created_at : datetime
}.

(** [schemas.LeaderboardEntry] and [schemas.LeaderboardResponse]. *)
Record LeaderboardEntry : Type := mkLeaderboardEntry {
  rank : Z;
  e_player_name : string;
  e_score : Z;
  e_created_at : datetime
}.

Record LeaderboardResponse : Type := mkLeaderboardResponse {
  entries : list LeaderboardEntry
}.

(** [schemas.StatsResponse]. *)
Record StatsResponse : Type := mkStatsResponse {
  total_games : Z;
  best_score : Z;
  average_score : F64.t;
  total_play_time_seconds : Z;
  longest_snake : Z
}.

(* ===================================================================== *)
(** ** Request validation ([schemas.ScoreCreate]) *)
(* ===================================================================== *)

(** One entry of a validation error: the field it is about ([loc]) and
    the constraint that failed. *)
Inductive error_type : Type :=
| missing
| greater_than_equal (ge : Z)
| string_too_long (max_length : nat).

Record ErrorDetail : Type := mkErrorDetail {
  loc : string;
  type : error_type
}.

(** [int = Field(ge=..., default=...)]; [default = None] is a required
    field.  A default is taken as it is. *)
Definition int_field (name : string) (ge : Z) (default : option Z)
    (v : option Z) : list ErrorDetail + Z :=
  match v with
  | Some z => if z <? ge then inl [mkErrorDetail name (greater_than_equal ge)]
              else inr z
  | None => match default with
            | Some d => inr d
            | None => inl [mkErrorDetail name missing]
            end
  end.

(** [Optional[str] = Field(default=..., max_length=...)]: [null] passes,
    a string is measured. *)
Definition optional_str_field (name : string) (max_length : nat)
    (default : option string) (v : option (option string))
    : list ErrorDetail + option string :=
  match v with
  | None => inr default
  | Some None => inr None
  | Some (Some s) =>
      if (max_length <? String.length s)%nat
      then inl [mkErrorDetail name (string_too_long max_length)]
      else inr (Some s)
  end.

Definition errors_of {A : Type} (r : list ErrorDetail + A) : list ErrorDetail :=
  match r with inl es => es | inr _ => [] end.

(** Validation reports every field that fails, in declaration order. *)
Definition validate (b : ScoreBody) : list ErrorDetail + ScoreCreate :=
  let f_score := int_field "score" 0 None (b_score b) in
  let f_snake := int_field "snake_length" 1 (Some 3) (b_snake_length b) in
  let f_dur := int_field "duration_seconds" 0 (Some 0) (b_duration_seconds b) in
  let f_name :=
    optional_str_field "player_name" 100 (Some "Player"%string) (b_player_name b) in
  match f_score, f_snake, f_dur, f_name with
  | inr s, inr l, inr d, inr n => inr (mkScoreCreate s l d n)
  | _, _, _, _ =>
      inl (errors_of f_score ++ errors_of f_snake ++ errors_of f_dur
           ++ errors_of f_name)
  end.


(* ===================================================================== *)
(** ** The database session ([database.py]) *)
(* ===================================================================== *)

(** What the environment decides for one request: the clock that
    [datetime.utcnow] reads, and whether the storage layer fails while the
    pending rows are written (flush), while the transaction is committed,
    or while the row is read back.  A failure carries the text [str(e)]
    gives.  Failures of the read-only statements of the two GET handlers
    are not part of the model. *)
Record Env : Type := mkEnv {
  utcnow : datetime;
  flush_fault : option string;
  commit_fault : option string;
  refresh_fault : option string
}.

(** The state a session sees and changes.
    - [committed]: the durable rows of [scores], in rowid order;
    - [txn]: the rows as the open write transaction has them, when the
      session has written without committing;
    - [heap]: the [Score] instances the handler created, by reference;
    - [new]: the references added to the session and not yet flushed. *)
Record Session : Type := mkSession {
  committed : list Score;
  txn : option (list Score);
  heap : list ScoreObj;
  new : list nat
}.

(** The rows a statement of this session reads. *)
Definition view (s : Session) : list Score :=
  match txn s with Some rows => rows | None => committed s end.

(** Python exceptions the handlers meet. *)
Inductive exn : Type :=
| Error (msg : string)
| HTTPException (status_code : Z) (detail : string).

(** A computation in a session: a result or an exception, and the state
    reached. *)
Definition M (A : Type) : Type := Session -> (exn + A) * Session.

Definition ret {A : Type} (a : A) : M A := fun s => (inr a, s).

Definition bind {A B : Type} (m : M A) (k : A -> M B) : M B :=
  fun s => match m s with
           | (inr a, s') => k a s'
           | (inl e, s') => (inl e, s')
           end.

Definition raise {A : Type} (e : exn) : M A := fun s => (inl e, s).

(** [try: body except Exception as e: handler(e)]. *)
Definition try_except {A : Type} (body : M A) (handler : exn -> M A) : M A :=
  fun s => match body s with
           | (inr a, s') => (inr a, s')
           | (inl e, s') => handler e s'
           end.

Declare Scope session_scope.
Delimit Scope session_scope with session.
Notation "x <- m ;; k" := (bind m (fun x => k))
  (at level 61, m at next level, right associativity) : session_scope.
Notation "m ;;; k" := (bind m (fun _ => k))
  (at level 61, right associativity) : session_scope.
Local Open Scope session_scope.

(** *** Storage-engine behaviour *)

(** The rowid SQLite gives a new row of an [INTEGER PRIMARY KEY] table:
    one more than the largest in use, [1] in an empty table. *)
Definition next_rowid (rows : list Score) : Z :=
  match map id rows with
  | [] => 1
  | i :: rest => fold_left Z.max rest i + 1
  end.

(** The [INSERT] of one instance: an attribute that is [None] takes the
    column default ([default="Player"], [default=datetime.utcnow]), the
    key is generated. *)
Definition insert_row (env : Env) (rows : list Score) (o : ScoreObj) : Score :=
  {| id := match o_id o with Some i => i | None => next_rowid rows end;
     player_name := match o_player_name o with
                    | Some n => n
                    | None => "Player"%string
                    end;
     score := o_score o;
     snake_length := o_snake_length o;
     duration_seconds := o_duration_seconds o;
     created_at := match o_created_at o with
                   | Some t => t
                   | None => utcnow env
                   end |}.

(** The attributes of an instance loaded from its row. *)
Definition obj_of_row (r : Score) : ScoreObj :=
  {| o_id := Some (id r);
     o_player_name := Some (player_name r);
     o_score := score r;
     o_snake_length := snake_length r;
     o_duration_seconds := duration_seconds r;
     o_created_at := Some (created_at r) |}.

(** [heap[ref] = o]; a reference outside the heap changes nothing. *)
Fixpoint heap_set (h : list ScoreObj) (ref : nat) (o : ScoreObj) : list ScoreObj :=
  match h, ref with
  | [], _ => []
  | _ :: h', O => o :: h'
  | x :: h', S n => x :: heap_set h' n o
  end.

(** [ORDER BY score DESC]: rows enter the sorter in scan order and a row
    goes behind every row whose score is not smaller, as with the sort key
    [(score DESC, arrival)]. *)
Fixpoint sorter_insert (r : Score) (sorted : list Score) : list Score :=
  match sorted with
  | [] => [r]
  | x :: rest =>
      if score x <? score r then r :: sorted
      else x :: sorter_insert r rest
  end.

Definition order_by_score_desc (rows : list Score) : list Score :=
  fold_left (fun sorted r => sorter_insert r sorted) rows [].

(** [LIMIT n]: SQLite puts no upper bound on the result when [n] is
    negative. *)
Definition sql_limit {A : Type} (n : Z) (rows : list A) : list A :=
  if n <? 0 then rows else firstn (Z.to_nat n) rows.

(** Aggregates; [max], [sum] and [avg] are [NULL] over no rows. *)
Definition sql_count {A : Type} (xs : list A) : option Z :=
  Some (Z.of_nat (List.length xs)).

Definition sql_max (xs : list Z) : option Z :=
  match xs with
  | [] => None
  | x :: rest => Some (fold_left Z.max rest x)
  end.

Definition sql_sum (xs : list Z) : option Z :=
  match xs with
  | [] => None
  | _ => Some (fold_left Z.add xs 0)
  end.

(** [avg] divides the sum by the count as doubles. *)
Definition sql_avg (xs : list Z) : option F64.t :=
  match xs with
  | [] => None
  | _ => F64.div (F64.of_Z (fold_left Z.add xs 0))
                 (F64.of_Z (Z.of_nat (List.length xs)))
  end.

(** *** Session operations *)

Definition set_heap (s : Session) (h : list ScoreObj) : Session :=
  mkSession (committed s) (txn s) h (new s).

(** [Score] built from the dumped request: a transient instance; the
    session does not know it yet. *)
Definition Score_new (kw : ScoreCreate) : M nat :=
  fun s =>
    let o := {| o_id := None;
                o_player_name := sc_player_name kw;
                o_score := sc_score kw;
                o_snake_length := sc_snake_length kw;
                o_duration_seconds := sc_duration_seconds kw;
                o_created_at := None |} in
    (inr (List.length (heap s)), set_heap s (heap s ++ [o])).

(** [db.add(obj)]: nothing is written ([autoflush=False]). *)
Definition db_add (ref : nat) : M unit :=
  fun s => (inr tt, mkSession (committed s) (txn s) (heap s) (new s ++ [ref])).

(** The flush writes the pending instances in the order they were added;
    each instance then carries what the database generated. *)
Fixpoint flush_rows (env : Env) (refs : list nat) (rows : list Score)
    (h : list ScoreObj) : list Score * list ScoreObj :=
  match refs with
  | [] => (rows, h)
  | ref :: rest =>
      match nth_error h ref with
      | Some o =>
          let r := insert_row env rows o in
          flush_rows env rest (rows ++ [r]) (heap_set h ref (obj_of_row r))
      | None => flush_rows env rest rows h
      end
  end.

Definition db_flush (env : Env) : M unit :=
  fun s =>
    match new s with
    | [] => (inr tt, s)
    | _ :: _ =>
        match flush_fault env with
        | Some msg => (inl (Error msg), s)
        | None =>
            let '(rows, h) := flush_rows env (new s) (view s) (heap s) in
            (inr tt, mkSession (committed s) (Some rows) h [])
        end
    end.

(** [db.commit()]: flush, then make the transaction durable. *)
Definition db_commit (env : Env) : M unit :=
  db_flush env ;;;
  (fun s =>
     match commit_fault env with
     | Some msg => (inl (Error msg), s)
     | None => (inr tt, mkSession (view s) None (heap s) (new s))
     end).

(** [db.refresh(obj)]: read the row of a persistent instance back. *)
Definition db_refresh (env : Env) (ref : nat) : M unit :=
  fun s =>
    match refresh_fault env with
    | Some msg => (inl (Error msg), s)
    | None =>
        match nth_error (heap s) ref with
        | Some (mkScoreObj (Some i) _ _ _ _ _) =>
            match find (fun r => id r =? i) (view s) with
            | Some r => (inr tt, set_heap s (heap_set (heap s) ref (obj_of_row r)))
            | None => (inl (Error "Could not refresh instance"), s)
            end
        | _ => (inl (Error "Instance is not persistent within this Session"), s)
        end
    end.

(** [db.rollback()]: the open transaction and the pending instances are
    dropped; what was committed stays. *)
Definition db_rollback : M unit :=
  fun s => (inr tt, mkSession (committed s) None (heap s) [])
.

(** A read-only statement over the rows the session sees. *)
Definition db_query {A : Type} (q : list Score -> A) : M A :=
  fun s => (inr (q (view s)), s).

(** [get_db]: a fresh session over the table; [db.close()] on the way out
    releases whatever is still open. *)
Definition open_session (table : list Score) : Session :=
  mkSession table None [] [].

Definition db_close (s : Session) : Session :=
  mkSession (committed s) None (heap s) [].

(* ===================================================================== *)
(** ** The handlers ([routers/scores.py]) *)
(* ===================================================================== *)

(** [str(e)]. *)
Definition str (e : exn) : string :=
  match e with
  | Error msg => msg
  | HTTPException c d =>
      (DecimalString.NilZero.string_of_int (Z.to_int c) ++ ": " ++ d)%string
  end.

Definition save_failed : string := "Не удалось сохранить результат: ".

(** [create_score]; the value is the reference [db_score]. *)
Definition create_score (env : Env) (score_data : ScoreCreate) : M nat :=
  try_except
    (db_score <- Score_new score_data ;;
     db_add db_score ;;;
     db_commit env ;;;
     db_refresh env db_score ;;;
     ret db_score)
    (fun e =>
       db_rollback ;;;
       raise (HTTPException 500 (save_failed ++ str e))).

(** [enumerate]. *)
Fixpoint enumerate_from {A : Type} (start : Z) (l : list A) : list (Z * A) :=
  match l with
  | [] => []
  | x :: rest => (start, x) :: enumerate_from (start + 1) rest
  end.

Definition enumerate {A : Type} (l : list A) : list (Z * A) :=
  enumerate_from 0 l.

(** The list comprehension of [get_leaderboard]: the ranking step. *)
Definition rank_entries (scores : list Score) : list LeaderboardEntry :=
  map (fun '(index, sc) =>
         {| rank := index + 1;
            e_player_name := player_name sc;
            e_score := score sc;
            e_created_at := created_at sc |})
      (enumerate scores).

(** The query of [get_leaderboard]. *)
Definition top_by_score (limit : Z) (rows : list Score) : list Score :=
  sql_limit limit (order_by_score_desc rows).

Definition get_leaderboard (limit : Z) : M LeaderboardResponse :=
  scores <- db_query (top_by_score limit) ;;
  ret {| entries := rank_entries scores |}.

(** [x or d]: [d] replaces [None] and zero. *)
Definition or_int (x : option Z) (d : Z) : Z :=
  match x with
  | Some v => if v =? 0 then d else v
  | None => d
  end.

Definition or_float (x : option F64.t) (d : F64.t) : F64.t :=
  match x with
  | Some v => if F64.is_zero v then d else v
  | None => d
  end.

Definition get_stats : M StatsResponse :=
  count <- db_query (fun rows => sql_count (map id rows)) ;;
  let total_games := or_int count 0 in
  if total_games =? 0 then
    ret {| total_games := 0;
           best_score := 0;
           average_score := F64.zero;
           total_play_time_seconds := 0;
           longest_snake := 0 |}
  else
    max_score <- db_query (fun rows => sql_max (map score rows)) ;;
    let best_score := or_int max_score 0 in
    avg_score <- db_query (fun rows => sql_avg (map score rows)) ;;
    let average_score := or_float avg_score F64.zero in
    sum_time <- db_query (fun rows => sql_sum (map duration_seconds rows)) ;;
    let total_time := or_int sum_time 0 in
    max_length <- db_query (fun rows => sql_max (map snake_length rows)) ;;
    let longest_snake := or_int max_length 0 in
    ret {| total_games := total_games;
           best_score := best_score;
           average_score := F64.round1 average_score;
           total_play_time_seconds := total_time;
           longest_snake := longest_snake |}.

(** *** The endpoints as the client sees them *)

(** What a request comes back with. *)
Inductive Response (A : Type) : Type :=
| Success (status_code : Z) (body : A)
| ValidationError (detail : list ErrorDetail)
| HTTPError (status_code : Z) (detail : string)
| InternalServerError.

Arguments Success {A} status_code body.
Arguments ValidationError {A} detail.
Arguments HTTPError {A} status_code detail.
Arguments InternalServerError {A}.

(** [response_model=ScoreResponse] with [from_attributes]: every attribute
    must be there. *)
Definition to_ScoreResponse (o : ScoreObj) : option ScoreResponse :=
  match o_id o, o_player_name o, o_created_at o with
  | Some i, Some n, Some t =>
      Some (mkScoreResponse i n (o_score o) (o_snake_length o)
                            (o_duration_seconds o) t)
  | _, _, _ => None
  end.

Definition failure {A : Type} (e : exn) : Response A :=
  match e with
  | HTTPException c d => HTTPError c d
  | Error _ => InternalServerError
  end.

(** [POST /api/scores]: the body is validated before the handler is
    called; a body that fails is answered with the validation error. *)
Definition post_scores (env : Env) (body : ScoreBody) (table : list Score)
    : Response ScoreResponse * list Score :=
  match validate body with
  | inl errs => (ValidationError errs, table)
  | inr score_data =>
      let '(res, s) := create_score env score_data (open_session table) in
      let response :=
        match res with
        | inr db_score =>
            match nth_error (heap s) db_score with
            | Some o =>
                match to_ScoreResponse o with
                | Some body => Success 201 body
                | None => InternalServerError
                end
            | None => InternalServerError
            end
        | inl e => failure e
        end in
      (response, committed (db_close s))
  end.

(** [GET /api/leaderboard?limit=...], [limit] defaulting to [10]. *)
Definition get_leaderboard_endpoint (limit : option Z) (table : list Score)
    : Response LeaderboardResponse * list Score :=
  let limit := match limit with Some n => n | None => 10 end in
  let '(res, s) := get_leaderboard limit (open_session table) in
  (match res with inr body => Success 200 body | inl e => failure e end,
   committed (db_close s)).

(** [GET /api/stats]. *)
Definition get_stats_endpoint (table : list Score)
    : Response StatsResponse * list Score :=
  let '(res, s) := get_stats (open_session table) in
  (match res with inr body => Success 200 body | inl e => failure e end,
   committed (db_close s)).

(* ===================================================================== *)
(** ** Notions the properties are stated with *)
(* ===================================================================== *)

(** A client's request, and the table after a run of requests that starts
    from the empty table. *)
Inductive Request : Type :=
| PostScore (env : Env) (body : ScoreBody)
| GetLeaderboard (limit : option Z)
| GetStats.

Definition serve (table : list Score) (q : Request) : list Score :=
  match q with
  | PostScore env body => snd (post_scores env body table)
  | GetLeaderboard limit => snd (get_leaderboard_endpoint limit table)
  | GetStats => snd (get_stats_endpoint table)
  end.

Definition run (qs : list Request) : list Score := fold_left serve qs [].





(** Descending by score. *)
Definition score_ge (a b : Score) : Prop := score b <= score a.

(** The row [create_score] stores for a validated request. *)
Definition stored_row (env : Env) (table : list Score) (sd : ScoreCreate) : Score :=
  {| id := next_rowid table;
     player_name := match sc_player_name sd with
                    | Some n => n
                    | None => "Player"%string
                    end;
     score := sc_score sd;
     snake_length := sc_snake_length sd;
     duration_seconds := sc_duration_seconds sd;
     created_at := utcnow env |}.

Definition response_of_row (r : Score) : ScoreResponse :=
  mkScoreResponse (id r) (player_name r) (score r) (snake_length r)
                  (duration_seconds r) (created_at r).

(** The failure met while the row is persisted: at the flush or, the flush
    passed, at the commit. *)
Definition persistence_fault (env : Env) : option string :=
  match flush_fault env with
  | Some msg => Some msg
  | None => commit_fault env
  end.

(** The field constraints of a stored game result that the validation
    enforces. *)
Definition name_within_limit (r : Score) : Prop :=
  (String.length (player_name r) <= 100)%nat.

Definition fields_within_range (r : Score) : Prop :=
  0 <= score r /\ 1 <= snake_length r /\ 0 <= duration_seconds r
  /\ name_within_limit r.

(** The sum and the greatest element of a list of integers. *)
Definition total (xs : list Z) : Z := fold_right Z.add 0 xs.

Definition is_max (m : Z) (xs : list Z) : Prop :=
  In m xs /\ forall x, In x xs -> x <= m.





(** *** Sample data *)

(** A request-independent environment without failures. *)
Definition calm (now : datetime) : Env := mkEnv now None None None.

(** A game played by [name] with [points] points, stored as row [i]. *)
Definition game (i : Z) (name : string) (points : Z) : Score :=
  mkScore i name points 3 0 (1700000000 + i).

(** Scores [50, 80, 80, 30], inserted in that order. *)
Definition four_games : list Score :=
  [game 1 "ann" 50; game 2 "bob" 80; game 3 "cy" 80; game 4 "dee" 30]%string.

(** Scores [10, 20, 30], durations [5, 10, 15], lengths [3, 4, 10]. *)
Definition three_games : list Score :=
  [mkScore 1 "Player" 10 3 5 1700000001;
   mkScore 2 "Player" 20 4 10 1700000002;
   mkScore 3 "Player" 30 10 15 1700000003]%string.


(** Everything the four field validators of [ScoreCreate] report. *)
Definition field_errors (b : ScoreBody) : list ErrorDetail :=
  errors_of (int_field "score" 0 None (b_score b))
  ++ errors_of (int_field "snake_length" 1 (Some 3) (b_snake_length b))
  ++ errors_of (int_field "duration_seconds" 0 (Some 0) (b_duration_seconds b))
  ++ errors_of (optional_str_field "player_name" 100 (Some "Player"%string)
                                   (b_player_name b)).

(** The field constraints on a validated request. *)
Definition ScoreCreate_in_range (sd : ScoreCreate) : Prop :=
  0 <= sc_score sd /\ 1 <= sc_snake_length sd /\ 0 <= sc_duration_seconds sd
  /\ forall n, sc_player_name sd = Some n -> (String.length n <= 100)%nat.


(** The two halves of an exponent: [2 ^ e] is
    [2 ^ exp_up e / 2 ^ exp_down e], both exponents being natural. *)
Definition exp_up (e : Z) : Z := Z.max 0 e.
Definition exp_down (e : Z) : Z := Z.max 0 (- e).


(** The number of elements as an integer. *)
Definition how_many (xs : list Z) : Z := Z.of_nat (List.length xs).

(** *** Notions for the further properties *)

(** The value of an optional integer field, [d] when it is absent. *)
Definition or_default (d : Z) (v : option Z) : Z :=
  match v with Some z => z | None => d end.

(** A body every field of which is within its constraint. *)
Definition in_range_body (b : ScoreBody) : Prop :=
  (exists z, b_score b = Some z /\ 0 <= z)
  /\ (forall z, b_snake_length b = Some z -> 1 <= z)
  /\ (forall z, b_duration_seconds b = Some z -> 0 <= z)
  /\ (forall n, b_player_name b = Some (Some n) -> (String.length n <= 100)%nat).






(** [ScoreCreate.model_dump()] read as a request body: every field
    present. *)
Definition model_dump (sd : ScoreCreate) : ScoreBody :=
  mkScoreBody (Some (sc_score sd)) (Some (sc_snake_length sd))
              (Some (sc_duration_seconds sd)) (Some (sc_player_name sd)).




(** The keys [1, 2, ..., n]. *)
Definition keys_to (n : nat) : list Z := map Z.of_nat (seq 1 n).

(** The entries of a leaderboard answer, none when the request failed. *)
Definition entries_of (resp : Response LeaderboardResponse)
    : list LeaderboardEntry :=
  match resp with
  | Success _ body => entries body
  | _ => []
  end.

(** The statistics of a stats answer. *)
Definition stats_of (resp : Response StatsResponse) : option StatsResponse :=
  match resp with
  | Success _ body => Some body
  | _ => None
  end.

(** *** The debug representation ([models.Score.__repr__]) *)

(** [str(n)] of an integer: its decimal digits, behind a minus sign when
    it is negative. *)
Definition str_int (z : Z) : string := NilZero.string_of_int (Z.to_int z).

(** [repr] of a loaded row. *)
Definition Score_repr (r : Score) : string :=
  ("<Score(id=" ++ str_int (id r) ++ ", player='" ++ player_name r
   ++ "', score=" ++ str_int (score r) ++ ")>")%string.

(** The string has no character [c]. *)
Fixpoint lacks (c : Ascii.ascii) (s : string) : Prop :=
  match s with
  | EmptyString => True
  | String a rest => a <> c /\ lacks c rest
  end.

(* ===================================================================== *)
(** ** The ranking step *)
(* ===================================================================== *)

Section Ranking.


Lemma enumerate_from_nth {A : Type} (l : list A) :
  forall start i,
    nth_error (enumerate_from start l) i
    = option_map (fun x => (start + Z.of_nat i, x)) (nth_error l i).
Proof.
  induction l as [| x l IH]; intros start i.
  - now destruct i.
  - destruct i as [| i]; simpl.
    + now rewrite Z.add_0_r.
    + rewrite IH. destruct (nth_error l i); simpl; [| reflexivity].
      do 2 f_equal. lia.
Qed.

Lemma enumerate_from_index {A : Type} (l : list A) :
  forall start,
    map fst (enumerate_from start l)
    = map (fun i => start + Z.of_nat i) (seq 0 (List.length l)).
Proof.
  induction l as [| x l IH]; intros start; simpl; [reflexivity |].
  rewrite Z.add_0_r. f_equal.
  rewrite IH, <- seq_shift, map_map.
  apply map_ext. intros i. lia.
Qed.


Lemma rank_entries_nth (scores : list Score) (i : nat) :
  nth_error (rank_entries scores) i
  = option_map (fun sc => mkLeaderboardEntry (Z.of_nat i + 1) (player_name sc)
                                             (score sc) (created_at sc))
               (nth_error scores i).
Proof.
  unfold rank_entries, enumerate.
  rewrite nth_error_map, enumerate_from_nth.
  now destruct (nth_error scores i).
Qed.

Lemma rank_entries_ranks (scores : list Score) :
  map rank (rank_entries scores)
  = map (fun i => Z.of_nat i + 1) (seq 0 (List.length scores)).
Proof.
  unfold rank_entries, enumerate.
  rewrite map_map.
  transitivity (map (fun i => i + 1) (map fst (enumerate_from 0 scores))).
  - rewrite map_map. apply map_ext. now intros [i sc].
  - rewrite enumerate_from_index, map_map. reflexivity.
Qed.


End Ranking.

(** C5.  The ranking step gives the entry at position [i] (from zero) the
    rank [i + 1] and the name, score and date of the record at that
    position; the ranks of any input are [1, 2, ..., n] whatever the
    scores are, so equal scores at positions 3 and 4 carry ranks 3 and 4;
    and the leaderboard handler ranks what the query returned. *)
Theorem rank_is_position :
  (forall (scores : list Score) (i : nat),
      nth_error (rank_entries scores) i
      = option_map (fun sc => mkLeaderboardEntry (Z.of_nat i + 1) (player_name sc)
                                                 (score sc) (created_at sc))
                   (nth_error scores i))
  /\ (forall scores : list Score,
         map rank (rank_entries scores)
         = map (fun i => Z.of_nat i + 1) (seq 0 (List.length scores)))
  /\ (forall (limit : Z) (s : Session),
         fst (get_leaderboard limit s)
         = inr {| entries := rank_entries (top_by_score limit (view s)) |}).
Proof.
  split; [| split].
  - exact rank_entries_nth.
  - exact rank_entries_ranks.
  - reflexivity.
Qed.

(* ===================================================================== *)
(** ** The leaderboard query *)
(* ===================================================================== *)

Section TopByScore.


Lemma sorter_insert_In (r x : Score) (l : list Score) :
  In x (sorter_insert r l) <-> x = r \/ In x l.
Proof.
  induction l as [| y l IH]; simpl.
  - intuition congruence.
  - destruct (score y <? score r); simpl; [intuition congruence |].
    rewrite IH. intuition.
Qed.

Lemma sorter_insert_sorted (r : Score) (l : list Score) :
  StronglySorted score_ge l -> StronglySorted score_ge (sorter_insert r l).
Proof.
  induction 1 as [| y l Hs IH Hall]; simpl.
  - constructor; constructor.
  - destruct (score y <? score r) eqn:E.
    + apply Z.ltb_lt in E. constructor.
      * now constructor.
      * constructor; [unfold score_ge; lia |].
        rewrite Forall_forall in Hall |- *.
        intros z Hz. specialize (Hall z Hz). unfold score_ge in *. lia.
    + apply Z.ltb_ge in E. constructor; [exact IH |].
      rewrite Forall_forall in Hall |- *.
      intros z Hz. apply sorter_insert_In in Hz as [-> | Hz]; [exact E | auto].
Qed.


Lemma sorter_fold_sorted (rows acc : list Score) :
  StronglySorted score_ge acc ->
  StronglySorted score_ge (fold_left (fun sorted r => sorter_insert r sorted) rows acc).
Proof.
  revert acc. induction rows as [| r rows IH]; intros acc Hacc; simpl.
  - exact Hacc.
  - apply IH. now apply sorter_insert_sorted.
Qed.


Lemma sorter_fold_In (x : Score) (rows acc : list Score) :
  In x (fold_left (fun sorted r => sorter_insert r sorted) rows acc)
  <-> In x acc \/ In x rows.
Proof.
  revert acc. induction rows as [| r rows IH]; intros acc; simpl.
  - intuition.
  - rewrite IH, sorter_insert_In. intuition.
Qed.

Lemma sorter_insert_perm (r : Score) (l : list Score) :
  Permutation (sorter_insert r l) (r :: l).
Proof.
  induction l as [| x l IH]; simpl; [reflexivity |].
  destruct (score x <? score r); [reflexivity |].
  rewrite IH. apply perm_swap.
Qed.

Lemma sorter_fold_perm (rows acc : list Score) :
  Permutation (fold_left (fun sorted r => sorter_insert r sorted) rows acc)
              (acc ++ rows).
Proof.
  revert acc. induction rows as [| r rows IH]; intros acc; simpl.
  - now rewrite app_nil_r.
  - rewrite IH, sorter_insert_perm. apply Permutation_middle.
Qed.

(** [ORDER BY score DESC] yields the rows of the table, each once. *)
Lemma order_by_score_desc_perm (rows : list Score) :
  Permutation (order_by_score_desc rows) rows.
Proof. apply (sorter_fold_perm rows []). Qed.

(** [ORDER BY score DESC] yields the rows in descending order of score. *)
Lemma order_by_score_desc_sorted (rows : list Score) :
  StronglySorted score_ge (order_by_score_desc rows).
Proof. apply sorter_fold_sorted. constructor. Qed.


Lemma order_by_score_desc_In (x : Score) (rows : list Score) :
  In x (order_by_score_desc rows) <-> In x rows.
Proof. unfold order_by_score_desc. rewrite sorter_fold_In. simpl. intuition. Qed.



(** A limit that is not negative bounds the number of rows. *)
Lemma top_by_score_length (limit : Z) (rows : list Score) :
  0 <= limit ->
  List.length (top_by_score limit rows)
  = Nat.min (Z.to_nat limit) (List.length rows).
Proof.
  intros Hl. unfold top_by_score, sql_limit.
  replace (limit <? 0) with false by (symmetry; apply Z.ltb_ge; lia).
  rewrite length_firstn.
  now rewrite (Permutation_length (order_by_score_desc_perm rows)).
Qed.


End TopByScore.

(** The sample of the specification: scores [50, 80, 80, 30] and a limit
    of three. *)
Example leaderboard_four_games :
  fst (get_leaderboard_endpoint (Some 3) four_games)
  = Success 200
      {| entries :=
           [mkLeaderboardEntry 1 "bob" 80 1700000002;
            mkLeaderboardEntry 2 "cy" 80 1700000003;
            mkLeaderboardEntry 3 "ann" 50 1700000001]%string |}.
Proof. reflexivity. Qed.

(** The read handlers leave the whole session as it is. *)
Lemma get_leaderboard_session (limit : Z) (s : Session) :
  get_leaderboard limit s
  = (inr {| entries := rank_entries (top_by_score limit (view s)) |}, s).
Proof. reflexivity. Qed.

Lemma get_leaderboard_endpoint_eq (limit : option Z) (table : list Score) :
  get_leaderboard_endpoint limit table
  = (Success 200
       {| entries :=
            rank_entries
              (top_by_score (match limit with Some n => n | None => 10 end)
                            table) |},
     table).
Proof. reflexivity. Qed.







(* ===================================================================== *)
(** ** The read handlers and the store *)
(* ===================================================================== *)

Lemma get_stats_session (s : Session) :
  snd (get_stats s) = s /\ exists body, fst (get_stats s) = inr body.
Proof.
  unfold get_stats, bind, db_query, ret.
  destruct (or_int (sql_count (map id (view s))) 0 =? 0); simpl; eauto.
Qed.

Lemma get_stats_endpoint_frame (table : list Score) :
  snd (get_stats_endpoint table) = table.
Proof.
  unfold get_stats_endpoint.
  destruct (get_stats_session (open_session table)) as [Hs _].
  destruct (get_stats (open_session table)) as [res s].
  simpl in Hs. subst s. reflexivity.
Qed.


(** C10.  Neither read endpoint changes the stored records: the table
    after the call is the table before it, record for record; inside the
    handler the session (committed rows, open transaction, instances,
    pending list) is left as it was. *)
Theorem reads_do_not_modify_store :
  (forall (limit : option Z) (table : list Score),
      snd (get_leaderboard_endpoint limit table) = table)
  /\ (forall table : list Score, snd (get_stats_endpoint table) = table)
  /\ (forall (limit : Z) (s : Session), snd (get_leaderboard limit s) = s)
  /\ (forall s : Session, snd (get_stats s) = s).
Proof.
  repeat split.
  - apply get_stats_endpoint_frame.
  - apply get_stats_session.
Qed.

(** C9.  A read endpoint called again, on the store the first call left
    and with no write in between, answers as the first call did; the
    same holds for two calls in the same session. *)
Theorem reads_are_repeatable :
  (forall (limit : option Z) (table : list Score),
      fst (get_leaderboard_endpoint limit
             (snd (get_leaderboard_endpoint limit table)))
      = fst (get_leaderboard_endpoint limit table))
  /\ (forall table : list Score,
         fst (get_stats_endpoint (snd (get_stats_endpoint table)))
         = fst (get_stats_endpoint table))
  /\ (forall (limit : Z) (s : Session),
         fst (get_leaderboard limit (snd (get_leaderboard limit s)))
         = fst (get_leaderboard limit s))
  /\ (forall s : Session,
         fst (get_stats (snd (get_stats s))) = fst (get_stats s)).
Proof.
  repeat split.
  - intros table. now rewrite get_stats_endpoint_frame.
  - intros s. now rewrite (proj1 (get_stats_session s)).
Qed.

(* ===================================================================== *)
(** ** Validation of a creation request *)
(* ===================================================================== *)

Section Validation.

Variable b : ScoreBody.

Lemma int_field_inl (name : string) (ge : Z) (d : option Z) (v : option Z)
    (es : list ErrorDetail) :
  int_field name ge d v = inl es -> es <> [].
Proof.
  unfold int_field. destruct v as [z |]; [destruct (z <? ge) | destruct d];
    intros H; inversion H; discriminate.
Qed.

Lemma optional_str_field_inl (name : string) (m : nat) (d : option string)
    (v : option (option string)) (es : list ErrorDetail) :
  optional_str_field name m d v = inl es -> es <> [].
Proof.
  unfold optional_str_field.
  destruct v as [[n |] |]; [destruct (m <? String.length n)%nat | |];
    intros H; inversion H; discriminate.
Qed.


Lemma validate_inr (sd : ScoreCreate) :
  validate b = inr sd ->
  int_field "score" 0 None (b_score b) = inr (sc_score sd)
  /\ int_field "snake_length" 1 (Some 3) (b_snake_length b)
     = inr (sc_snake_length sd)
  /\ int_field "duration_seconds" 0 (Some 0) (b_duration_seconds b)
     = inr (sc_duration_seconds sd)
  /\ optional_str_field "player_name" 100 (Some "Player"%string)
                        (b_player_name b)
     = inr (sc_player_name sd).
Proof.
  unfold validate.
  destruct (int_field "score" 0 None (b_score b)) as [e1 | s];
    destruct (int_field "snake_length" 1 (Some 3) (b_snake_length b))
      as [e2 | l];
    destruct (int_field "duration_seconds" 0 (Some 0) (b_duration_seconds b))
      as [e3 | d];
    destruct (optional_str_field "player_name" 100 (Some "Player"%string)
                                 (b_player_name b)) as [e4 | n];
    intros H; inversion H; subst; simpl; auto.
Qed.

Lemma int_field_inr (name : string) (ge : Z) (d : option Z) (v : option Z)
    (z : Z) :
  int_field name ge d v = inr z ->
  (v = Some z /\ ge <= z) \/ (v = None /\ d = Some z).
Proof.
  unfold int_field. destruct v as [x |].
  - destruct (x <? ge) eqn:E; intros H; inversion H; subst.
    apply Z.ltb_ge in E. now left.
  - destruct d; intros H; inversion H; subst. now right.
Qed.

(** A request that passes validation is within the field constraints. *)
Lemma validate_in_range (sd : ScoreCreate) :
  validate b = inr sd -> ScoreCreate_in_range sd.
Proof.
  intros H. apply validate_inr in H as (H1 & H2 & H3 & H4).
  apply int_field_inr in H1, H2, H3.
  unfold ScoreCreate_in_range. repeat split.
  - destruct H1 as [[_ ?] | [_ ?]]; [lia | discriminate].
  - destruct H2 as [[_ ?] | [_ E]]; [lia | inversion E; lia].
  - destruct H3 as [[_ ?] | [_ E]]; [lia | inversion E; lia].
  - intros n Hn. rewrite Hn in H4. unfold optional_str_field in H4.
    destruct (b_player_name b) as [[m |] |].
    + destruct (100 <? String.length m)%nat eqn:E; inversion H4; subst.
      apply Nat.ltb_ge in E. exact E.
    + discriminate.
    + inversion H4; subst. simpl. lia.
Qed.


End Validation.



(* ===================================================================== *)
(** ** Creating a score *)
(* ===================================================================== *)

Section CreateScore.

Lemma fold_max_ge (l : list Z) :
  forall i, i <= fold_left Z.max l i
            /\ forall x, In x l -> x <= fold_left Z.max l i.
Proof.
  induction l as [| a l IH]; intros i; simpl.
  - split; [lia | tauto].
  - destruct (IH (Z.max i a)) as [H1 H2]. split; [lia |].
    intros x [<- | Hx]; [lia | auto].
Qed.

(** The generated key is above every key in the table. *)
Lemma next_rowid_fresh (table : list Score) (r : Score) :
  In r table -> id r < next_rowid table.
Proof.
  unfold next_rowid. destruct table as [| a l]; [intros [] |].
  simpl. destruct (fold_max_ge (map id l) (id a)) as [H1 H2].
  intros [<- | Hr]; [lia |].
  specialize (H2 (id r) (in_map id l r Hr)). lia.
Qed.

Lemma find_new_row (table : list Score) (row : Score) :
  (forall r, In r table -> id r < id row) ->
  find (fun r => id r =? id row) (table ++ [row]) = Some row.
Proof.
  induction table as [| a l IH]; intros H; simpl.
  - now rewrite Z.eqb_refl.
  - replace (id a =? id row) with false.
    + apply IH. intros r Hr. apply H. now right.
    + symmetry. apply Z.eqb_neq. specialize (H a (or_introl eq_refl)). lia.
Qed.

#[local] Arguments append : simpl never.
#[local] Arguments save_failed : simpl never.

Variable env : Env.
Variable sd : ScoreCreate.
Variable table : list Score.

(** What [create_score] does to a fresh session, by the place of the
    failure. *)
Lemma create_score_outcome :
  create_score env sd (open_session table)
  = match flush_fault env, commit_fault env, refresh_fault env with
    | Some msg, _, _ =>
        (inl (HTTPException 500 (save_failed ++ msg)),
         mkSession table None
           [mkScoreObj None (sc_player_name sd) (sc_score sd)
                       (sc_snake_length sd) (sc_duration_seconds sd) None] [])
    | None, Some msg, _ =>
        (inl (HTTPException 500 (save_failed ++ msg)),
         mkSession table None [obj_of_row (stored_row env table sd)] [])
    | None, None, Some msg =>
        (inl (HTTPException 500 (save_failed ++ msg)),
         mkSession (table ++ [stored_row env table sd]) None [obj_of_row (stored_row env table sd)] [])
    | None, None, None =>
        (inr O, mkSession (table ++ [stored_row env table sd]) None [obj_of_row (stored_row env table sd)] [])
    end.
Proof.
  unfold create_score, try_except, bind, Score_new, db_add, db_commit,
    db_flush, db_refresh, db_rollback, raise, ret, open_session; simpl.
  destruct (flush_fault env) as [m1 |]; simpl; [reflexivity |].
  destruct (commit_fault env) as [m2 |]; simpl; [reflexivity |].
  destruct (refresh_fault env) as [m3 |]; simpl; [reflexivity |].
  unfold view; simpl.
  change (insert_row env table _) with (stored_row env table sd).
  change (next_rowid table) with (id (stored_row env table sd)).
  rewrite (find_new_row table (stored_row env table sd)); [reflexivity |].
  intros r Hr. apply next_rowid_fresh. exact Hr.
Qed.

(** The endpoint, for a body that passes validation. *)
Lemma post_scores_outcome (body : ScoreBody) :
  validate body = inr sd ->
  post_scores env body table
  = match flush_fault env, commit_fault env, refresh_fault env with
    | Some msg, _, _ => (HTTPError 500 (save_failed ++ msg), table)
    | None, Some msg, _ => (HTTPError 500 (save_failed ++ msg), table)
    | None, None, Some msg =>
        (HTTPError 500 (save_failed ++ msg), table ++ [stored_row env table sd])
    | None, None, None =>
        (Success 201 (response_of_row (stored_row env table sd)), table ++ [stored_row env table sd])
    end.
Proof.
  intros Hv. unfold post_scores. rewrite Hv, create_score_outcome.
  destruct (flush_fault env), (commit_fault env), (refresh_fault env);
    reflexivity.
Qed.

End CreateScore.



(** A failure after the commit, when the row is read back, is answered
    in the same way although the record is stored, complete. *)
Lemma refresh_failure_after_commit
    (env : Env) (body : ScoreBody) (sd : ScoreCreate) (table : list Score)
    (msg : string) :
  validate body = inr sd ->
  persistence_fault env = None -> refresh_fault env = Some msg ->
  post_scores env body table
  = (HTTPError 500 (save_failed ++ msg),
     table ++ [stored_row env table sd]).
Proof.
  intros Hv Hp Hr. rewrite (post_scores_outcome env sd table body Hv).
  unfold persistence_fault in Hp.
  destruct (flush_fault env); [discriminate |].
  rewrite Hp, Hr. reflexivity.
Qed.

(* ===================================================================== *)
(** ** What the store can hold *)
(* ===================================================================== *)

Section StoreInvariant.

Variable P : Score -> Prop.

Hypothesis P_stored :
  forall env table body sd,
    validate body = inr sd -> P (stored_row env table sd).

Lemma post_scores_preserves (env : Env) (body : ScoreBody) (table : list Score) :
  Forall P table -> Forall P (snd (post_scores env body table)).
Proof.
  intros Ht. destruct (validate body) as [errs | sd] eqn:Hv.
  - unfold post_scores. now rewrite Hv.
  - rewrite (post_scores_outcome env sd table body Hv).
    assert (Forall P (table ++ [stored_row env table sd])).
    { apply Forall_app. split; [exact Ht |].
      constructor; [eapply P_stored; eassumption | constructor]. }
    destruct (flush_fault env), (commit_fault env), (refresh_fault env);
      simpl; assumption.
Qed.

Lemma serve_preserves (q : Request) (table : list Score) :
  Forall P table -> Forall P (serve table q).
Proof.
  destruct q as [env body | limit |]; unfold serve.
  - apply post_scores_preserves.
  - now rewrite get_leaderboard_endpoint_eq.
  - now rewrite get_stats_endpoint_frame.
Qed.

Lemma run_preserves (qs : list Request) : Forall P (run qs).
Proof.
  unfold run. generalize (@Forall_nil Score P). generalize (@nil Score).
  induction qs as [| q qs IH]; intros table Ht; simpl; [exact Ht |].
  apply IH. now apply serve_preserves.
Qed.

End StoreInvariant.

Lemma stored_row_in_range (env : Env) (table : list Score) (body : ScoreBody)
    (sd : ScoreCreate) :
  validate body = inr sd -> fields_within_range (stored_row env table sd).
Proof.
  intros Hv. destruct (validate_in_range body sd Hv) as (H1 & H2 & H3 & H4).
  unfold fields_within_range, name_within_limit; simpl.
  repeat split; try assumption.
  destruct (sc_player_name sd) as [n |]; [now apply H4 | simpl; lia].
Qed.

(** Every record that requests put into the store is within the field
    constraints the validation enforces. *)
Lemma run_fields_within_range (qs : list Request) :
  Forall fields_within_range (run qs).
Proof.
  apply run_preserves. intros env table body sd.
  apply stored_row_in_range.
Qed.




(* ===================================================================== *)
(** ** Statistics *)
(* ===================================================================== *)

Section Aggregates.

Lemma fold_left_add_total (xs : list Z) :
  forall a, fold_left Z.add xs a = a + total xs.
Proof.
  induction xs as [| x xs IH]; intros a; simpl; [lia |].
  rewrite IH. lia.
Qed.

Lemma fold_max_In (l : list Z) :
  forall i, In (fold_left Z.max l i) (i :: l).
Proof.
  induction l as [| a l IH]; intros i; simpl; [now left |].
  destruct (IH (Z.max i a)) as [H | H]; [| now right; right].
  rewrite <- H. destruct (Z.max_spec i a) as [[_ E] | [_ E]]; rewrite E; auto.
Qed.

Lemma sql_max_is_max (xs : list Z) :
  xs <> [] -> exists m, sql_max xs = Some m /\ is_max m xs.
Proof.
  destruct xs as [| x rest]; [congruence | intros _].
  exists (fold_left Z.max rest x). split; [reflexivity |]. split.
  - apply fold_max_In.
  - destruct (fold_max_ge rest x) as [H1 H2].
    intros y [<- | Hy]; auto.
Qed.

Lemma sql_sum_total (xs : list Z) :
  xs <> [] -> sql_sum xs = Some (total xs).
Proof.
  destruct xs as [| x rest]; [congruence | intros _].
  unfold sql_sum. now rewrite fold_left_add_total.
Qed.

Lemma or_int_some (m : Z) : or_int (Some m) 0 = m.
Proof.
  unfold or_int. destruct (m =? 0) eqn:E; [| reflexivity].
  apply Z.eqb_eq in E. now subst.
Qed.

End Aggregates.

Section Rounding.

(** [rne_div] is the nearest integer, an exact half going to the even
    one. *)
Lemma rne_div_nearest (num den : Z) :
  0 < den ->
  2 * Z.abs (num - F64.rne_div num den * den) <= den
  /\ (2 * Z.abs (num - F64.rne_div num den * den) = den ->
      Z.even (F64.rne_div num den) = true).
Proof.
  intros Hden. unfold F64.rne_div.
  pose proof (Z.div_mod num den ltac:(lia)) as Hdm.
  pose proof (Z.mod_pos_bound num den Hden) as Hr.
  set (q := num / den) in *. set (r := num mod den) in *.
  destruct (2 * r ?= den) eqn:C.
  - apply Z.compare_eq in C.
    destruct (Z.even q) eqn:Ev.
    + split; [| auto]. replace (num - q * den) with r by lia. lia.
    + split.
      * replace (num - (q + 1) * den) with (r - den) by lia. lia.
      * intros _. rewrite Z.add_1_r, Z.even_succ, <- Z.negb_even, Ev.
        reflexivity.
  - assert (C' : 2 * r < den) by (apply Z.compare_lt_iff; exact C).
    replace (num - q * den) with r by lia.
    split; [lia | intros H; exfalso; lia].
  - assert (C' : den < 2 * r) by (apply Z.compare_gt_iff; exact C).
    replace (num - (q + 1) * den) with (r - den) by lia.
    split; [lia | intros H; exfalso; lia].
Qed.

Lemma to_frac_den_pos (x : F64.t) : 0 < snd (F64.to_frac x).
Proof.
  unfold F64.to_frac. destruct (0 <=? F64.expo x) eqn:E; simpl; [lia |].
  apply Z.leb_gt in E. apply Z.pow_pos_nonneg; lia.
Qed.



End Rounding.

(* ===================================================================== *)
(** ** Facts on binary64 numbers *)
(* ===================================================================== *)

Example f64_one : F64.of_Z 1 = F64.mk (2 ^ 52) (-52).
Proof. reflexivity. Qed.

Example f64_tenth : F64.of_frac 1 10 = F64.mk 7205759403792794 (-56).
Proof. reflexivity. Qed.

Example f64_015 : F64.of_frac 15 100 = F64.mk 5404319552844595 (-55).
Proof. reflexivity. Qed.

(** [0.15] is stored slightly below fifteen hundredths, so it rounds to
    one tenth; [0.25] is exact and the half goes to the even digit. *)
Example tenths_015 : F64.tenths (F64.of_frac 15 100) = 1.
Proof. reflexivity. Qed.

Example tenths_025 : F64.tenths (F64.of_frac 1 4) = 2.
Proof. reflexivity. Qed.

Example tenths_035 : F64.tenths (F64.of_frac 35 100) = 3.
Proof. reflexivity. Qed.

Example tenths_045 : F64.tenths (F64.of_frac 45 100) = 5.
Proof. reflexivity. Qed.

Example tenths_075 : F64.tenths (F64.of_frac 3 4) = 8.
Proof. reflexivity. Qed.

Section Binary64.

Lemma scaled_eq (a den e : Z) :
  F64.scaled a den e = (a * 2 ^ exp_down e, den * 2 ^ exp_up e).
Proof.
  unfold F64.scaled, exp_up, exp_down. destruct (0 <=? e) eqn:E.
  - apply Z.leb_le in E.
    rewrite (Z.max_l 0 (- e)), (Z.max_r 0 e) by lia.
    now rewrite Z.pow_0_r, Z.mul_1_r.
  - apply Z.leb_gt in E.
    rewrite (Z.max_r 0 (- e)), (Z.max_l 0 e) by lia.
    now rewrite Z.pow_0_r, Z.mul_1_r.
Qed.

Lemma pow2_pos (k : Z) : 0 <= k -> 0 < 2 ^ k.
Proof. intros. apply Z.pow_pos_nonneg; lia. Qed.

Lemma exp_up_pos (e : Z) : 0 < 2 ^ exp_up e.
Proof. apply pow2_pos. unfold exp_up. lia. Qed.

Lemma exp_down_pos (e : Z) : 0 < 2 ^ exp_down e.
Proof. apply pow2_pos. unfold exp_down. lia. Qed.

(** Exponents that differ by [k >= 0]. *)
Lemma exp_shift (e k : Z) :
  0 <= k ->
  2 ^ exp_up (e + k) * 2 ^ exp_down e
  = 2 ^ k * (2 ^ exp_up e * 2 ^ exp_down (e + k)).
Proof.
  intros Hk. rewrite <- !Z.pow_add_r by (unfold exp_up, exp_down; lia).
  f_equal. unfold exp_up, exp_down. lia.
Qed.

Lemma log2_bounds (a : Z) :
  0 < a -> 0 <= Z.log2 a /\ 2 ^ Z.log2 a <= a < 2 * 2 ^ Z.log2 a.
Proof.
  intros Ha. pose proof (Z.log2_nonneg a) as Hn.
  pose proof (Z.log2_spec a Ha) as Hs.
  rewrite Z.pow_succ_r in Hs by assumption. auto.
Qed.

(** [exponent_of] normalises: the scaled fraction is in [[2^52, 2^53)]. *)
Lemma exponent_of_spec (a den : Z) :
  0 < a -> 0 < den ->
  let e := F64.exponent_of a den in
  2 ^ 52 * (den * 2 ^ exp_up e) <= a * 2 ^ exp_down e
  /\ a * 2 ^ exp_down e < 2 ^ 53 * (den * 2 ^ exp_up e).
Proof.
  intros Ha Hden. unfold F64.exponent_of.
  destruct (log2_bounds a Ha) as (Hla & HA1 & HA2).
  destruct (log2_bounds den Hden) as (Hld & HD1 & HD2).
  set (e0 := Z.log2 a - Z.log2 den - 52).
  assert (Hrel : 2 ^ Z.log2 a * 2 ^ exp_down e0
                 = 2 ^ 52 * (2 ^ Z.log2 den * 2 ^ exp_up e0)).
  { rewrite <- !Z.pow_add_r by (unfold exp_up, exp_down; lia).
    f_equal. unfold exp_up, exp_down, e0. lia. }
  pose proof (exp_up_pos e0) as HU. pose proof (exp_down_pos e0) as HP.
  pose proof (exp_up_pos (e0 - 1)) as HU'.
  pose proof (exp_down_pos (e0 - 1)) as HP'.
  pose proof (exp_shift (e0 - 1) 1 ltac:(lia)) as Hsh.
  replace (e0 - 1 + 1) with e0 in Hsh by lia.
  rewrite scaled_eq.
  replace (2 ^ 53) with (4 * 2 ^ 51) by reflexivity.
  replace (2 ^ 52) with (2 * 2 ^ 51) in * by reflexivity.
  change (2 ^ 1) with 2 in Hsh.
  assert (Hc : 0 < 2 ^ 51) by reflexivity.
  remember (2 ^ 51) as c eqn:Ec. clear Ec.
  remember (2 ^ Z.log2 a) as A eqn:EA. clear EA.
  remember (2 ^ Z.log2 den) as D eqn:ED. clear ED.
  remember (2 ^ exp_up e0) as U eqn:EU.
  remember (2 ^ exp_down e0) as P eqn:EP.
  assert (HcU : 0 < c * U) by (apply Z.mul_pos_pos; assumption).
  assert (Hlow : c * (den * U) < a * P).
  { apply Z.lt_le_trans with (A * P).
    - rewrite Hrel.
      replace (c * (den * U)) with (c * U * den) by ring.
      replace (2 * c * (D * U)) with (c * U * (2 * D)) by ring.
      apply Z.mul_lt_mono_pos_l; lia.
    - apply Z.mul_le_mono_nonneg_r; lia. }
  assert (Hhigh : a * P < 4 * c * (den * U)).
  { apply Z.lt_le_trans with (2 * A * P).
    - apply Z.mul_lt_mono_pos_r; lia.
    - replace (2 * A * P) with (2 * (A * P)) by ring. rewrite Hrel.
      replace (2 * (2 * c * (D * U))) with (4 * (c * U) * D) by ring.
      replace (4 * c * (den * U)) with (4 * (c * U) * den) by ring.
      apply Z.mul_le_mono_nonneg_l; lia. }
  destruct (a * P / (den * U) <? 2 * c) eqn:E; cbv zeta.
  - apply Z.ltb_lt in E.
    assert (Hlt : a * P < 2 * c * (den * U)).
    { destruct (Z_lt_ge_dec (a * P) (2 * c * (den * U))) as [H | H];
        [exact H | exfalso].
      assert (2 * c <= a * P / (den * U))
        by (apply Z.div_le_lower_bound; nia).
      lia. }
    remember (2 ^ exp_up (e0 - 1)) as U' eqn:EU'. clear EU'.
    remember (2 ^ exp_down (e0 - 1)) as P' eqn:EP'. clear EP'.
    split.
    + apply (Z.mul_le_mono_pos_r _ _ U HU). nia.
    + apply (Z.mul_lt_mono_pos_r U _ _ HU). nia.
  - apply Z.ltb_ge in E.
    assert (Hge : 2 * c * (den * U) <= a * P).
    { destruct (Z_lt_ge_dec (a * P) (2 * c * (den * U))) as [H | H];
        [exfalso | lia].
      assert (a * P / (den * U) < 2 * c)
        by (apply Z.div_lt_upper_bound; nia).
      lia. }
    rewrite <- EU, <- EP. split; lia.
Qed.

Lemma rne_div_between (n d lo hi : Z) :
  0 < d -> lo * d <= n -> n < hi * d ->
  lo <= F64.rne_div n d <= hi.
Proof.
  intros Hd Hlo Hhi.
  assert (lo <= n / d) by (apply Z.div_le_lower_bound; lia).
  assert (n / d < hi) by (apply Z.div_lt_upper_bound; lia).
  unfold F64.rne_div.
  destruct (2 * (n mod d) ?= d); [destruct (Z.even (n / d)) | |]; lia.
Qed.

(** [of_frac] yields a normal number within a relative error of [2^-53]
    of the fraction. *)
Lemma of_frac_spec (num den : Z) :
  num <> 0 -> 0 < den ->
  exists m e,
    F64.of_frac num den = F64.mk (Z.sgn num * m) e
    /\ 2 ^ 52 <= m < 2 ^ 53
    /\ 2 ^ 53 * Z.abs (Z.abs num * 2 ^ exp_down e - m * (den * 2 ^ exp_up e))
       <= Z.abs num * 2 ^ exp_down e.
Proof.
  intros Hnum Hden. unfold F64.of_frac.
  replace (num =? 0) with false by (symmetry; now apply Z.eqb_neq).
  assert (Ha : 0 < Z.abs num) by lia.
  destruct (exponent_of_spec (Z.abs num) den Ha Hden) as [Hlo Hhi].
  set (e := F64.exponent_of (Z.abs num) den) in *.
  rewrite scaled_eq.
  pose proof (exp_up_pos e) as HU. pose proof (exp_down_pos e) as HP.
  set (n := Z.abs num * 2 ^ exp_down e) in *.
  set (d := den * 2 ^ exp_up e) in *.
  assert (Hd : 0 < d) by (apply Z.mul_pos_pos; assumption).
  destruct (rne_div_nearest n d Hd) as [Hnear _].
  assert (Hm : 2 ^ 52 <= F64.rne_div n d <= 2 ^ 53)
    by (apply rne_div_between; lia).
  set (m := F64.rne_div n d) in *.
  destruct (m =? 2 ^ 53) eqn:E53.
  - apply Z.eqb_eq in E53.
    exists (2 ^ 52), (e + 1). split; [reflexivity |].
    split; [split; [lia | reflexivity] |].
    pose proof (exp_shift e 1 ltac:(lia)) as Hsh. change (2 ^ 1) with 2 in Hsh.
    pose proof (exp_up_pos (e + 1)) as HU'.
    pose proof (exp_down_pos (e + 1)) as HP'.
    rewrite E53 in Hnear. unfold n, d in Hnear, Hlo.
    replace (2 ^ 53) with (2 * 2 ^ 52) in * by reflexivity.
    assert (Hc : 0 < 2 ^ 52) by reflexivity.
    remember (2 ^ 52) as c eqn:Ec. clear Ec.
    remember (2 ^ exp_up e) as U eqn:EU. clear EU.
    remember (2 ^ exp_down e) as P eqn:EP. clear EP.
    remember (2 ^ exp_up (e + 1)) as U' eqn:EU'. clear EU'.
    remember (2 ^ exp_down (e + 1)) as P' eqn:EP'. clear EP'.
    remember (Z.abs num) as a eqn:Ea. clear Ea.
    apply (Z.mul_le_mono_pos_r _ _ (2 * U)); [lia |].
    replace (2 * c * Z.abs (a * P' - c * (den * U')) * (2 * U))
      with (2 * c * Z.abs ((a * P' - c * (den * U')) * (2 * U)))
      by (rewrite (Z.abs_mul _ (2 * U)), (Z.abs_eq (2 * U)) by lia; ring).
    replace ((a * P' - c * (den * U')) * (2 * U))
      with (U' * (a * P - 2 * c * (den * U))) by nia.
    rewrite Z.abs_mul, (Z.abs_eq U') by lia.
    replace (a * P' * (2 * U)) with (U' * (a * P)) by nia.
    replace (2 * c * (U' * Z.abs (a * P - 2 * c * (den * U))))
      with (U' * (c * (2 * Z.abs (a * P - 2 * c * (den * U))))) by ring.
    apply Z.mul_le_mono_nonneg_l; [lia |].
    apply Z.le_trans with (c * (den * U)); [| lia].
    apply Z.mul_le_mono_nonneg_l; lia.
  - apply Z.eqb_neq in E53.
    exists m, e. split; [reflexivity |]. split; [lia |].
    fold n d.
    replace (2 ^ 53) with (2 ^ 52 * 2) by reflexivity.
    rewrite <- Z.mul_assoc.
    apply Z.le_trans with (2 ^ 52 * d); [| exact Hlo].
    apply Z.mul_le_mono_nonneg_l; lia.
Qed.





Lemma of_Z_nonzero (z : Z) : z <> 0 -> F64.is_zero (F64.of_Z z) = false.
Proof.
  intros Hz. destruct (of_frac_spec z 1 Hz ltac:(lia)) as (m & e & E & Hm & _).
  unfold F64.of_Z. rewrite E. unfold F64.is_zero; cbn [F64.mant].
  apply Z.eqb_neq. assert (0 < 2 ^ 52) by reflexivity.
  destruct z; try contradiction; cbn [Z.sgn]; lia.
Qed.

End Binary64.

Section Average.

Variable xs : list Z.
Hypothesis some_values : xs <> [].

Lemma count_positive : 0 < how_many xs.
Proof. unfold how_many. destruct xs; [congruence | simpl; lia]. Qed.

Lemma sql_avg_eq :
  sql_avg xs = F64.div (F64.of_Z (total xs)) (F64.of_Z (how_many xs)).
Proof.
  unfold sql_avg. destruct xs as [| x rest] eqn:E; [congruence |].
  rewrite fold_left_add_total. reflexivity.
Qed.

(** Over some rows the average is a number: the count is not zero. *)
Lemma sql_avg_some : exists x, sql_avg xs = Some x.
Proof.
  rewrite sql_avg_eq. unfold F64.div.
  rewrite of_Z_nonzero by (pose proof count_positive; lia).
  destruct (F64.to_frac (F64.of_Z (total xs))),
    (F64.to_frac (F64.of_Z (how_many xs))); eauto.
Qed.


End Average.


Section Stats.

Variable table : list Score.
Hypothesis some_games : table <> [].

Lemma total_games_positive :
  (or_int (sql_count (map id table)) 0 =? 0) = false.
Proof.
  unfold sql_count. rewrite or_int_some, length_map.
  apply Z.eqb_neq. destruct table; [congruence | simpl; lia].
Qed.

(** The statistics of a store with records, aggregate by aggregate. *)
Lemma get_stats_endpoint_nonempty :
  get_stats_endpoint table
  = (Success 200
       {| total_games := Z.of_nat (List.length table);
          best_score := or_int (sql_max (map score table)) 0;
          average_score :=
            F64.round1 (or_float (sql_avg (map score table)) F64.zero);
          total_play_time_seconds :=
            or_int (sql_sum (map duration_seconds table)) 0;
          longest_snake := or_int (sql_max (map snake_length table)) 0 |},
     table).
Proof.
  unfold get_stats_endpoint, get_stats, bind, db_query, ret.
  cbn [view open_session txn committed].
  rewrite total_games_positive.
  unfold sql_count. rewrite or_int_some, length_map. reflexivity.
Qed.

Lemma map_nonempty {B : Type} (f : Score -> B) : map f table <> [].
Proof. destruct table; [congruence | discriminate]. Qed.

End Stats.

(** The sample of the specification. *)
Example stats_three_games :
  get_stats_endpoint three_games
  = (Success 200
       {| total_games := 3;
          best_score := 30;
          average_score := F64.of_tenths 200;
          total_play_time_seconds := 30;
          longest_snake := 10 |},
     three_games).
Proof. reflexivity. Qed.




(* ===================================================================== *)
(** ** Further properties: validation *)
(* ===================================================================== *)

Section ValidationExact.

Variable b : ScoreBody.

Lemma validate_inl_inv (errs : list ErrorDetail) :
  validate b = inl errs -> errs = field_errors b.
Proof.
  unfold validate, field_errors.
  destruct (int_field "score" 0 None (b_score b)) as [e1 | s];
    destruct (int_field "snake_length" 1 (Some 3) (b_snake_length b))
      as [e2 | l];
    destruct (int_field "duration_seconds" 0 (Some 0) (b_duration_seconds b))
      as [e3 | d];
    destruct (optional_str_field "player_name" 100 (Some "Player"%string)
                                 (b_player_name b)) as [e4 | n];
    intros H; inversion H; reflexivity.
Qed.


Lemma validate_inl_nonempty (errs : list ErrorDetail) :
  validate b = inl errs -> errs <> [].
Proof.
  intros H. pose proof (validate_inl_inv errs H) as ->.
  intros Hnil. unfold validate in H.
  unfold field_errors in Hnil.
  destruct (int_field "score" 0 None (b_score b)) as [e1 | s] eqn:E1;
    destruct (int_field "snake_length" 1 (Some 3) (b_snake_length b))
      as [e2 | l] eqn:E2;
    destruct (int_field "duration_seconds" 0 (Some 0) (b_duration_seconds b))
      as [e3 | d] eqn:E3;
    destruct (optional_str_field "player_name" 100 (Some "Player"%string)
                                 (b_player_name b)) as [e4 | n] eqn:E4;
    try discriminate; simpl in Hnil;
    repeat match goal with
           | H : int_field _ _ _ _ = inl _ |- _ => apply int_field_inl in H
           | H : optional_str_field _ _ _ _ = inl _ |- _ =>
               apply optional_str_field_inl in H
           end;
    repeat match goal with
           | H : _ ++ _ = [] |- _ => apply app_eq_nil in H; destruct H
           end;
    subst; congruence.
Qed.

End ValidationExact.

(** X1.  A body within the field constraints passes validation, and the
    validated request carries the given values, with 3 for an absent
    snake length, 0 for an absent duration and "Player" for an absent
    name; a name given as [null] stays [None]. *)
Theorem validate_accepts_in_range :
  forall b : ScoreBody,
    in_range_body b ->
    exists sd : ScoreCreate,
      validate b = inr sd
      /\ b_score b = Some (sc_score sd)
      /\ sc_snake_length sd = or_default 3 (b_snake_length b)
      /\ sc_duration_seconds sd = or_default 0 (b_duration_seconds b)
      /\ sc_player_name sd
         = match b_player_name b with
           | Some v => v
           | None => Some "Player"%string
           end.
Proof.
  intros b ((s & Es & Hs) & Hl & Hd & Hn).
  unfold validate, int_field, optional_str_field. rewrite Es.
  replace (s <? 0) with false by (symmetry; apply Z.ltb_ge; lia).
  assert (El : match b_snake_length b with
               | Some z => if z <? 1 then inl [mkErrorDetail "snake_length" (greater_than_equal 1)] else inr z
               | None => inr 3
               end = @inr (list ErrorDetail) Z (or_default 3 (b_snake_length b))).
  { destruct (b_snake_length b) as [z |]; [| reflexivity].
    specialize (Hl z eq_refl).
    now replace (z <? 1) with false by (symmetry; apply Z.ltb_ge; lia). }
  assert (Ed : match b_duration_seconds b with
               | Some z => if z <? 0 then inl [mkErrorDetail "duration_seconds" (greater_than_equal 0)] else inr z
               | None => inr 0
               end = @inr (list ErrorDetail) Z (or_default 0 (b_duration_seconds b))).
  { destruct (b_duration_seconds b) as [z |]; [| reflexivity].
    specialize (Hd z eq_refl).
    now replace (z <? 0) with false by (symmetry; apply Z.ltb_ge; lia). }
  rewrite El, Ed.
  destruct (b_player_name b) as [[n |] |].
  - specialize (Hn n eq_refl).
    replace (100 <? String.length n)%nat with false
      by (symmetry; apply Nat.ltb_ge; lia).
    eexists; repeat split; reflexivity.
  - eexists; repeat split; reflexivity.
  - eexists; repeat split; reflexivity.
Qed.

Lemma validate_accepts_in_range_witness :
  exists sd : ScoreCreate,
    validate (mkScoreBody (Some 42) None (Some 7) (Some None)) = inr sd
    /\ Some 42 = Some (sc_score sd)
    /\ sc_snake_length sd = 3
    /\ sc_duration_seconds sd = 7
    /\ sc_player_name sd = None.
Proof.
  apply (validate_accepts_in_range
           (mkScoreBody (Some 42) None (Some 7) (Some None))).
  repeat split; simpl; try discriminate.
  - exists 42. split; [reflexivity | lia].
  - intros z E. inversion E. lia.
Defined.



(** X14.  A validated request, dumped and validated again, is accepted
    unchanged. *)
Theorem validate_model_dump :
  forall (b : ScoreBody) (sd : ScoreCreate),
    validate b = inr sd -> validate (model_dump sd) = inr sd.
Proof.
  intros b sd H. destruct (validate_in_range b sd H) as (H1 & H2 & H3 & H4).
  destruct sd as [s l d n]; simpl in *.
  unfold validate, model_dump, int_field, optional_str_field; simpl.
  replace (s <? 0) with false by (symmetry; apply Z.ltb_ge; lia).
  replace (l <? 1) with false by (symmetry; apply Z.ltb_ge; lia).
  replace (d <? 0) with false by (symmetry; apply Z.ltb_ge; lia).
  destruct n as [n |]; [| reflexivity].
  specialize (H4 n eq_refl).
  now replace (100 <? String.length n)%nat with false
    by (symmetry; apply Nat.ltb_ge; lia).
Qed.

Lemma validate_model_dump_witness :
  validate (model_dump (mkScoreCreate 42 3 7 (Some "Player"%string)))
  = inr (mkScoreCreate 42 3 7 (Some "Player"%string)).
Proof.
  apply (validate_model_dump (mkScoreBody (Some 42) None (Some 7) None)).
  reflexivity.
Defined.

(* ===================================================================== *)
(** ** Further properties: creating a score *)
(* ===================================================================== *)

(** X3.  [POST /api/scores] answers in one of three ways only: 201 with
    the record, the validation error with at least one entry, or 500 with
    a detail that starts with the fixed text; it never fails in another
    way. *)
Theorem post_scores_answers :
  forall (env : Env) (body : ScoreBody) (table : list Score),
    match fst (post_scores env body table) with
    | Success c _ => c = 201
    | ValidationError errs => errs <> []
    | HTTPError c d => c = 500 /\ exists msg, d = (save_failed ++ msg)%string
    | InternalServerError => False
    end.
Proof.
  intros env body table.
  destruct (validate body) as [errs | sd] eqn:Hv.
  - unfold post_scores. rewrite Hv. simpl.
    apply (validate_inl_nonempty body errs Hv).
  - rewrite (post_scores_outcome env sd table body Hv).
    destruct (flush_fault env), (commit_fault env), (refresh_fault env);
      simpl; eauto.
Qed.

Lemma validate_fields (b : ScoreBody) (sd : ScoreCreate) :
  validate b = inr sd ->
  b_score b = Some (sc_score sd)
  /\ sc_snake_length sd = or_default 3 (b_snake_length b)
  /\ sc_duration_seconds sd = or_default 0 (b_duration_seconds b)
  /\ sc_player_name sd
     = match b_player_name b with
       | Some v => v
       | None => Some "Player"%string
       end.
Proof.
  intros H. apply validate_inr in H as (H1 & H2 & H3 & H4).
  apply int_field_inr in H1, H2, H3.
  repeat split.
  - destruct H1 as [[E _] | [_ E]]; [exact E | discriminate].
  - destruct H2 as [[E _] | [E1 E2]]; [now rewrite E |].
    rewrite E1. simpl. now inversion E2.
  - destruct H3 as [[E _] | [E1 E2]]; [now rewrite E |].
    rewrite E1. simpl. now inversion E2.
  - unfold optional_str_field in H4.
    destruct (b_player_name b) as [[n |] |].
    + destruct (100 <? String.length n)%nat; now inversion H4.
    + now inversion H4.
    + now inversion H4.
Qed.

(** X4.  When [POST /api/scores] answers 201, the record it returns is
    the one record the store gained, at the end; looking the returned id
    up in the store finds that record; and its fields are those of the
    request, with the defaults for the absent ones ("Player" also for a
    name given as [null]). *)
Theorem created_record_is_stored :
  forall (env : Env) (body : ScoreBody) (table : list Score)
         (resp : ScoreResponse),
    fst (post_scores env body table) = Success 201 resp ->
    exists row : Score,
      snd (post_scores env body table) = table ++ [row]
      /\ resp = response_of_row row
      /\ find (fun r => id r =? r_id resp) (snd (post_scores env body table))
         = Some row
      /\ b_score body = Some (score row)
      /\ snake_length row = or_default 3 (b_snake_length body)
      /\ duration_seconds row = or_default 0 (b_duration_seconds body)
      /\ player_name row
         = match b_player_name body with
           | Some (Some n) => n
           | _ => "Player"%string
           end
      /\ created_at row = utcnow env.
Proof.
  intros env body table resp H.
  destruct (validate body) as [errs | sd] eqn:Hv.
  - unfold post_scores in H. rewrite Hv in H. discriminate.
  - rewrite (post_scores_outcome env sd table body Hv) in H |- *.
    destruct (validate_fields body sd Hv) as (F1 & F2 & F3 & F4).
    destruct (flush_fault env), (commit_fault env), (refresh_fault env);
      simpl in H; try discriminate.
    inversion H; subst resp; clear H.
    exists (stored_row env table sd). cbn [snd].
    split; [reflexivity |]. split; [reflexivity |]. split.
    { change (r_id (response_of_row (stored_row env table sd)))
        with (id (stored_row env table sd)).
      apply find_new_row. intros r Hr. now apply next_rowid_fresh. }
    cbn [stored_row score snake_length duration_seconds player_name
         created_at].
    rewrite F4. repeat split; try assumption.
    now destruct (b_player_name body) as [[n |] |].
Qed.

Lemma created_record_is_stored_witness :
  exists row : Score,
    snd (post_scores (calm 5) (mkScoreBody (Some 7) None None (Some None))
                     four_games)
    = four_games ++ [row]
    /\ mkScoreResponse 5 "Player" 7 3 0 5 = response_of_row row.
Proof.
  destruct (created_record_is_stored (calm 5)
              (mkScoreBody (Some 7) None None (Some None)) four_games
              (mkScoreResponse 5 "Player" 7 3 0 5) eq_refl)
    as (row & H1 & H2 & _).
  exists row. split; assumption.
Defined.


Section TableInvariant.

Variable I : list Score -> Prop.

Hypothesis I_empty : I [].
Hypothesis I_stored :
  forall env table body sd,
    validate body = inr sd -> I table -> I (table ++ [stored_row env table sd]).

Lemma serve_keeps (q : Request) (table : list Score) :
  I table -> I (serve table q).
Proof.
  intros Ht. destruct q as [env body | limit |]; unfold serve.
  - destruct (validate body) as [errs | sd] eqn:Hv.
    + unfold post_scores. now rewrite Hv.
    + rewrite (post_scores_outcome env sd table body Hv).
      pose proof (I_stored env table body sd Hv Ht).
      destruct (flush_fault env), (commit_fault env), (refresh_fault env);
        assumption.
  - now rewrite get_leaderboard_endpoint_eq.
  - now rewrite get_stats_endpoint_frame.
Qed.

Lemma run_keeps (qs : list Request) : I (run qs).
Proof.
  unfold run. generalize I_empty. generalize (@nil Score).
  induction qs as [| q qs IH]; intros table Ht; simpl; [exact Ht |].
  apply IH. now apply serve_keeps.
Qed.

End TableInvariant.

Ltac nothing_added :=
  exists []; rewrite app_nil_r; split; [reflexivity | simpl; lia].

Lemma serve_appends (table : list Score) (q : Request) :
  exists rows, serve table q = table ++ rows /\ (List.length rows <= 1)%nat.
Proof.
  destruct q as [env body | limit |]; unfold serve.
  - destruct (validate body) as [errs | sd] eqn:Hv.
    + unfold post_scores. rewrite Hv. cbn [snd]. nothing_added.
    + rewrite (post_scores_outcome env sd table body Hv).
      destruct (flush_fault env), (commit_fault env), (refresh_fault env);
        cbn [snd];
        solve [ nothing_added
              | exists [stored_row env table sd]; split;
                [reflexivity | simpl; lia] ].
  - rewrite get_leaderboard_endpoint_eq. cbn [snd]. nothing_added.
  - rewrite get_stats_endpoint_frame. nothing_added.
Qed.

Lemma fold_serve_appends (qs : list Request) :
  forall table, exists rows, fold_left serve qs table = table ++ rows.
Proof.
  induction qs as [| q qs IH]; intros table; simpl.
  - exists []. now rewrite app_nil_r.
  - destruct (serve_appends table q) as (r1 & E1 & _). rewrite E1.
    destruct (IH (table ++ r1)) as (r2 & E2). rewrite E2.
    exists (r1 ++ r2). now rewrite app_assoc.
Qed.

(** X5.  No request removes or changes a stored record: a request leaves
    the table as it was or with one record more at the end, and the
    table after a longer run of requests starts with the table after the
    shorter run. *)
Theorem store_is_append_only :
  (forall (table : list Score) (q : Request),
      exists rows,
        serve table q = table ++ rows /\ (List.length rows <= 1)%nat)
  /\ (forall qs more : list Request,
         exists rows, run (qs ++ more) = run qs ++ rows).
Proof.
  split; [exact serve_appends |].
  intros qs more. unfold run. rewrite fold_left_app.
  apply fold_serve_appends.
Qed.

Section Keys.

Lemma keys_to_In (n : nat) (x : Z) :
  In x (keys_to n) <-> 1 <= x <= Z.of_nat n.
Proof.
  unfold keys_to. rewrite in_map_iff. split.
  - intros (k & <- & Hk). apply in_seq in Hk. lia.
  - intros Hx. exists (Z.to_nat x). split; [lia |]. apply in_seq. lia.
Qed.

Lemma keys_to_succ (n : nat) :
  keys_to (S n) = keys_to n ++ [Z.of_nat n + 1].
Proof.
  unfold keys_to. rewrite seq_S, map_app. simpl. do 2 f_equal. lia.
Qed.

(** In a table whose keys are [1 .. n] the next key is [n + 1]. *)
Lemma next_rowid_keys (table : list Score) :
  map id table = keys_to (List.length table) ->
  next_rowid table = Z.of_nat (List.length table) + 1.
Proof.
  intros H. unfold next_rowid. rewrite H.
  destruct (List.length table) as [| n]; [reflexivity |].
  change (keys_to (S n)) with (1 :: map Z.of_nat (seq 2 n)).
  set (rest := map Z.of_nat (seq 2 n)).
  pose proof (fold_max_In rest 1) as Hin.
  destruct (fold_max_ge rest 1) as [H1 H2].
  assert (Hup : fold_left Z.max rest 1 <= Z.of_nat (S n)).
  { apply (keys_to_In (S n)). exact Hin. }
  assert (Hlow : Z.of_nat (S n) <= fold_left Z.max rest 1).
  { assert (Hn : In (Z.of_nat (S n)) (1 :: rest))
      by (apply (keys_to_In (S n)); lia).
    destruct Hn as [E | Hn]; [lia | now apply H2]. }
  lia.
Qed.

Lemma sorted_lt_NoDup (l : list Z) : StronglySorted Z.lt l -> NoDup l.
Proof.
  induction 1 as [| a l Hs IH Hall]; constructor; [| exact IH].
  intros Hin. rewrite Forall_forall in Hall. specialize (Hall a Hin). lia.
Qed.

Lemma keys_to_sorted (n : nat) : StronglySorted Z.lt (keys_to n).
Proof.
  unfold keys_to. generalize 1%nat.
  induction n as [| n IH]; intros k; simpl; constructor; [apply IH |].
  apply Forall_forall. intros x Hx.
  apply in_map_iff in Hx as (j & <- & Hj). apply in_seq in Hj. lia.
Qed.

End Keys.

(** X6.  In a store filled by requests from the empty table the ids are
    [1, 2, ..., n] in the order of insertion: every create gets the next
    integer, so ids are unique and strictly increasing. *)
Theorem ids_count_from_one :
  forall qs : list Request,
    map id (run qs) = keys_to (List.length (run qs))
    /\ NoDup (map id (run qs))
    /\ StronglySorted Z.lt (map id (run qs)).
Proof.
  intros qs.
  assert (H : map id (run qs) = keys_to (List.length (run qs))).
  { apply (run_keeps (fun t => map id t = keys_to (List.length t)));
      [reflexivity |].
    intros env table body sd _ Ht.
    rewrite map_app, length_app, Nat.add_1_r, keys_to_succ, Ht.
    cbn [map stored_row id]. now rewrite (next_rowid_keys table Ht). }
  split; [exact H |]. rewrite H.
  split; [apply sorted_lt_NoDup |]; apply keys_to_sorted.
Qed.

(* ===================================================================== *)
(** ** Further properties: the leaderboard *)
(* ===================================================================== *)

Section Leaderboard.





End Leaderboard.





Section NewRecord.






End NewRecord.



(* ===================================================================== *)
(** ** Further properties: statistics *)
(* ===================================================================== *)

Section StatsFacts.

Lemma is_max_unique (a b : Z) (xs : list Z) :
  is_max a xs -> is_max b xs -> a = b.
Proof.
  intros [Ha1 Ha2] [Hb1 Hb2].
  specialize (Ha2 b Hb1). specialize (Hb2 a Ha1). lia.
Qed.

Lemma best_score_is_max (table : list Score) (st : StatsResponse) :
  table <> [] ->
  stats_of (fst (get_stats_endpoint table)) = Some st ->
  is_max (best_score st) (map score table)
  /\ is_max (longest_snake st) (map snake_length table)
  /\ total_games st = Z.of_nat (List.length table)
  /\ total_play_time_seconds st = total (map duration_seconds table).
Proof.
  intros Hne. rewrite (get_stats_endpoint_nonempty table Hne).
  cbn [fst stats_of]. intros E. inversion E; subst st; clear E.
  cbn [best_score longest_snake total_games total_play_time_seconds].
  destruct (sql_max_is_max (map score table) (map_nonempty table Hne score))
    as (m1 & E1 & H1).
  destruct (sql_max_is_max (map snake_length table)
              (map_nonempty table Hne snake_length)) as (m2 & E2 & H2).
  rewrite E1, E2, (sql_sum_total _ (map_nonempty table Hne duration_seconds)).
  rewrite !or_int_some. auto.
Qed.

(** The first row of the query is a stored row that no stored row
    outscores. *)
Lemma top_by_score_head (limit : Z) (table : list Score) (h : Score)
    (t : list Score) :
  top_by_score limit table = h :: t ->
  is_max (score h) (map score table).
Proof.
  unfold top_by_score, sql_limit. intros E.
  pose proof (order_by_score_desc_sorted table) as Hs.
  pose proof (order_by_score_desc_perm table) as Hp.
  assert (EL : exists L', order_by_score_desc table = h :: L').
  { destruct (limit <? 0); [eauto |].
    destruct (order_by_score_desc table) as [| x L'];
      destruct (Z.to_nat limit); try discriminate.
    inversion E; subst. eauto. }
  destruct EL as (L' & EL). rewrite EL in Hs, Hp.
  inversion Hs as [| ? ? _ Hall]; subst. split.
  - apply in_map. apply (Permutation_in h Hp). now left.
  - intros x Hx. apply in_map_iff in Hx as (r & <- & Hr).
    apply (Permutation_in r (Permutation_sym Hp)) in Hr.
    destruct Hr as [<- | Hr]; [lia |].
    rewrite Forall_forall in Hall. apply (Hall r Hr).
Qed.

End StatsFacts.

(** X16.  The two read endpoints agree: the first entry of a leaderboard
    that is not empty has rank 1 and its score is the best score the
    statistics report. *)
Theorem first_entry_has_best_score :
  forall (limit : option Z) (table : list Score) (e : LeaderboardEntry)
         (es : list LeaderboardEntry) (st : StatsResponse),
    entries_of (fst (get_leaderboard_endpoint limit table)) = e :: es ->
    stats_of (fst (get_stats_endpoint table)) = Some st ->
    rank e = 1 /\ e_score e = best_score st.
Proof.
  intros limit table e es st. rewrite get_leaderboard_endpoint_eq.
  cbn [fst entries_of entries]. intros He Hst.
  destruct (top_by_score (match limit with Some n => n | None => 10 end) table)
    as [| h t] eqn:Etop; [discriminate |].
  assert (Hne : table <> []).
  { intros ->. unfold top_by_score, sql_limit in Etop.
    destruct (_ <? 0); [discriminate |].
    now destruct (Z.to_nat _). }
  inversion He; subst e. split; [reflexivity |]. cbn [e_score].
  apply (is_max_unique _ _ (map score table)).
  - eapply top_by_score_head; eassumption.
  - apply (best_score_is_max table st Hne Hst).
Qed.

Lemma first_entry_has_best_score_witness :
  rank (mkLeaderboardEntry 1 "bob" 80 1700000002) = 1
  /\ e_score (mkLeaderboardEntry 1 "bob" 80 1700000002) = 80.
Proof.
  apply (first_entry_has_best_score (Some 3) four_games
           (mkLeaderboardEntry 1 "bob" 80 1700000002)
           [mkLeaderboardEntry 2 "cy" 80 1700000003;
            mkLeaderboardEntry 3 "ann" 50 1700000001]%string
           (mkStatsResponse 4 80 (F64.of_tenths 600) 0 3));
    reflexivity.
Defined.

Section StatsGrowth.

Lemma fold_max_snoc (xs : list Z) (a x : Z) :
  fold_left Z.max (xs ++ [x]) a = Z.max (fold_left Z.max xs a) x.
Proof. now rewrite fold_left_app. Qed.

Lemma total_snoc (xs : list Z) (x : Z) : total (xs ++ [x]) = total xs + x.
Proof.
  induction xs as [| a xs IH]; simpl; [lia |]. rewrite IH. lia.
Qed.

Lemma stats_of_nonempty (table : list Score) (st : StatsResponse) :
  table <> [] ->
  stats_of (fst (get_stats_endpoint table)) = Some st ->
  st = {| total_games := Z.of_nat (List.length table);
          best_score := or_int (sql_max (map score table)) 0;
          average_score :=
            F64.round1 (or_float (sql_avg (map score table)) F64.zero);
          total_play_time_seconds :=
            or_int (sql_sum (map duration_seconds table)) 0;
          longest_snake := or_int (sql_max (map snake_length table)) 0 |}.
Proof.
  intros Hne. rewrite (get_stats_endpoint_nonempty table Hne).
  cbn [fst stats_of]. congruence.
Qed.

(** The statistics of a table with one more row. *)
Lemma stats_append (table : list Score) (r : Score) (st st' : StatsResponse) :
  0 <= score r -> 0 <= snake_length r ->
  stats_of (fst (get_stats_endpoint table)) = Some st ->
  stats_of (fst (get_stats_endpoint (table ++ [r]))) = Some st' ->
  total_games st' = total_games st + 1
  /\ best_score st' = Z.max (best_score st) (score r)
  /\ total_play_time_seconds st'
     = total_play_time_seconds st + duration_seconds r
  /\ longest_snake st' = Z.max (longest_snake st) (snake_length r).
Proof.
  intros Hs Hl Hst Hst'.
  assert (Hne' : table ++ [r] <> []) by (destruct table; discriminate).
  rewrite (stats_of_nonempty _ st' Hne' Hst').
  cbn [total_games best_score total_play_time_seconds longest_snake].
  rewrite !map_app, length_app.
  rewrite (sql_sum_total (map duration_seconds table ++ map duration_seconds [r]))
    by (destruct table; discriminate).
  rewrite or_int_some. cbn [map]. rewrite total_snoc.
  destruct table as [| x rest].
  - cbn in Hst. inversion Hst; subst st; clear Hst.
    cbn. repeat split; try lia.
    + destruct (score r =? 0) eqn:E; [apply Z.eqb_eq in E |]; lia.
    + destruct (snake_length r =? 0) eqn:E; [apply Z.eqb_eq in E |]; lia.
  - assert (Hne : x :: rest <> []) by discriminate.
    rewrite (stats_of_nonempty _ st Hne Hst).
    cbn [total_games best_score total_play_time_seconds longest_snake].
    rewrite (sql_sum_total (map duration_seconds (x :: rest)))
      by discriminate.
    cbn [map app sql_max]. rewrite !fold_max_snoc, !or_int_some.
    repeat split. cbn [List.length]. lia.
Qed.

End StatsGrowth.

(** X11.  After a create answered with 201 the statistics have moved by
    that game: one game more, the play time longer by its duration, and
    the best score and the longest snake raised to its score and its
    length where these are greater. *)
Theorem stats_after_create :
  forall (env : Env) (body : ScoreBody) (table : list Score)
         (resp : ScoreResponse) (st st' : StatsResponse),
    fst (post_scores env body table) = Success 201 resp ->
    stats_of (fst (get_stats_endpoint table)) = Some st ->
    stats_of (fst (get_stats_endpoint (snd (post_scores env body table))))
    = Some st' ->
    total_games st' = total_games st + 1
    /\ best_score st' = Z.max (best_score st) (r_score resp)
    /\ total_play_time_seconds st'
       = total_play_time_seconds st + r_duration_seconds resp
    /\ longest_snake st' = Z.max (longest_snake st) (r_snake_length resp).
Proof.
  intros env body table resp st st' H Hst.
  destruct (validate body) as [errs | sd] eqn:Hv.
  - unfold post_scores in H. rewrite Hv in H. discriminate.
  - rewrite (post_scores_outcome env sd table body Hv) in H |- *.
    destruct (stored_row_in_range env table body sd Hv) as (R1 & R2 & _).
    destruct (flush_fault env), (commit_fault env), (refresh_fault env);
      simpl in H; try discriminate.
    inversion H; subst resp; clear H. cbn [snd]. intros Hst'.
    apply (stats_append table (stored_row env table sd) st st');
      try assumption. lia.
Qed.

Lemma stats_after_create_witness :
  total_games (mkStatsResponse 5 120 (F64.of_tenths 720) 45 7)
  = total_games (mkStatsResponse 4 80 (F64.of_tenths 600) 0 3) + 1
  /\ best_score (mkStatsResponse 5 120 (F64.of_tenths 720) 45 7)
     = Z.max 80 120.
Proof.
  destruct (stats_after_create (calm 9)
              (mkScoreBody (Some 120) (Some 7) (Some 45) None) four_games
              (mkScoreResponse 5 "Player" 120 7 45 9)
              (mkStatsResponse 4 80 (F64.of_tenths 600) 0 3)
              (mkStatsResponse 5 120 (F64.of_tenths 720) 45 7)
              eq_refl eq_refl eq_refl) as (H1 & H2 & _).
  split; assumption.
Defined.

Section Signs.

Lemma of_frac_mant_nonneg (num den : Z) :
  0 <= num -> 0 < den -> 0 <= F64.mant (F64.of_frac num den).
Proof.
  intros Hn Hd. destruct (Z.eq_dec num 0) as [-> | Hnz]; [reflexivity |].
  destruct (of_frac_spec num den Hnz Hd) as (m & e & -> & Hm & _).
  cbn [F64.mant]. rewrite Z.sgn_pos by lia.
  assert (0 < 2 ^ 52) by reflexivity. lia.
Qed.

Lemma of_Z_mant_pos (z : Z) : 0 < z -> 0 < F64.mant (F64.of_Z z).
Proof.
  intros Hz. unfold F64.of_Z.
  destruct (of_frac_spec z 1 ltac:(lia) ltac:(lia)) as (m & e & -> & Hm & _).
  cbn [F64.mant]. rewrite Z.sgn_pos by lia.
  assert (0 < 2 ^ 52) by reflexivity. lia.
Qed.

Lemma to_frac_num_nonneg (x : F64.t) :
  0 <= F64.mant x -> 0 <= fst (F64.to_frac x).
Proof.
  intros H. unfold F64.to_frac. destruct (0 <=? F64.expo x) eqn:E; simpl.
  - apply Z.leb_le in E. apply Z.mul_nonneg_nonneg; [exact H |].
    apply Z.pow_nonneg. lia.
  - exact H.
Qed.

Lemma to_frac_num_pos (x : F64.t) :
  0 < F64.mant x -> 0 < fst (F64.to_frac x).
Proof.
  intros H. unfold F64.to_frac. destruct (0 <=? F64.expo x) eqn:E; simpl.
  - apply Z.leb_le in E. apply Z.mul_pos_pos; [exact H |].
    now apply pow2_pos.
  - exact H.
Qed.

Lemma rne_div_nonneg (n d : Z) : 0 <= n -> 0 < d -> 0 <= F64.rne_div n d.
Proof.
  intros Hn Hd. assert (0 <= n / d) by (apply Z.div_pos; lia).
  unfold F64.rne_div.
  destruct (2 * (n mod d) ?= d); [destruct (Z.even (n / d)) | |]; lia.
Qed.

Lemma round1_mant_nonneg (x : F64.t) :
  0 <= F64.mant x -> 0 <= F64.mant (F64.round1 x).
Proof.
  intros H. unfold F64.round1. apply of_frac_mant_nonneg; [| lia].
  unfold F64.tenths.
  pose proof (to_frac_num_nonneg x H) as Hn.
  pose proof (to_frac_den_pos x) as Hd.
  destruct (F64.to_frac x) as [n d]. simpl in Hn, Hd.
  apply rne_div_nonneg; lia.
Qed.

(** The average of values that are not negative is not negative. *)
Lemma sql_avg_mant_nonneg (xs : list Z) (x : F64.t) :
  xs <> [] -> 0 <= total xs -> sql_avg xs = Some x -> 0 <= F64.mant x.
Proof.
  intros Hne Ht. rewrite (sql_avg_eq xs Hne). unfold F64.div.
  pose proof (count_positive xs Hne) as Hc.
  rewrite of_Z_nonzero by lia.
  pose proof (to_frac_num_nonneg (F64.of_Z (total xs))
                (of_frac_mant_nonneg (total xs) 1 Ht ltac:(lia))) as Hnx.
  pose proof (to_frac_den_pos (F64.of_Z (total xs))) as Hdx.
  pose proof (to_frac_num_pos _ (of_Z_mant_pos _ Hc)) as Hny.
  pose proof (to_frac_den_pos (F64.of_Z (how_many xs))) as Hdy.
  destruct (F64.to_frac (F64.of_Z (total xs))) as [nx dx].
  destruct (F64.to_frac (F64.of_Z (how_many xs))) as [ny dy].
  simpl in Hnx, Hdx, Hny, Hdy.
  intros E. inversion E; subst x; clear E.
  apply of_frac_mant_nonneg.
  - rewrite Z.sgn_pos, Z.mul_1_l by lia.
    apply Z.mul_nonneg_nonneg; lia.
  - apply Z.mul_pos_pos; lia.
Qed.

Lemma total_nonneg (xs : list Z) : Forall (fun x => 0 <= x) xs -> 0 <= total xs.
Proof. induction 1; simpl; lia. Qed.

End Signs.

(** X13.  Over a store filled by requests from the empty table no
    statistic is negative: the number of games, the best score, the
    average, the play time and the longest snake are all at least zero,
    and with a game stored the longest snake is at least one. *)
Theorem stats_are_not_negative :
  forall (qs : list Request) (st : StatsResponse),
    stats_of (fst (get_stats_endpoint (run qs))) = Some st ->
    0 <= total_games st
    /\ 0 <= best_score st
    /\ 0 <= F64.mant (average_score st)
    /\ 0 <= total_play_time_seconds st
    /\ 0 <= longest_snake st
    /\ (0 < total_games st -> 1 <= longest_snake st).
Proof.
  intros qs st Hst.
  pose proof (run_fields_within_range qs) as Hr.
  destruct (run qs) as [| x rest] eqn:Et.
  - cbn in Hst. inversion Hst; subst st. cbn. repeat split; lia.
  - assert (Hne : x :: rest <> []) by discriminate.
    destruct (best_score_is_max _ st Hne Hst) as ([B1 _] & [L1 _] & G & T).
    rewrite Forall_forall in Hr.
    assert (Hb : 0 <= best_score st).
    { apply in_map_iff in B1 as (r & <- & Hin). apply (Hr r Hin). }
    assert (Hl : 1 <= longest_snake st).
    { apply in_map_iff in L1 as (r & <- & Hin). apply (Hr r Hin). }
    assert (Hscores : Forall (fun v => 0 <= v) (map score (x :: rest))).
    { apply Forall_forall. intros v Hv.
      apply in_map_iff in Hv as (r & <- & Hin). apply (Hr r Hin). }
    assert (Hdur : Forall (fun v => 0 <= v) (map duration_seconds (x :: rest))).
    { apply Forall_forall. intros v Hv.
      apply in_map_iff in Hv as (r & <- & Hin). apply (Hr r Hin). }
    repeat split; try lia.
    + rewrite (stats_of_nonempty _ st Hne Hst). cbn [average_score].
      destruct (sql_avg_some (map score (x :: rest)) ltac:(discriminate))
        as (v & Ev).
      rewrite Ev. apply round1_mant_nonneg. unfold or_float.
      destruct (F64.is_zero v); [reflexivity |].
      apply (sql_avg_mant_nonneg (map score (x :: rest)));
        [discriminate | now apply total_nonneg | exact Ev].
    + rewrite T. now apply total_nonneg.
Qed.

Lemma stats_are_not_negative_witness :
  0 <= total_games (mkStatsResponse 1 7 (F64.of_tenths 70) 0 3)
  /\ 0 <= best_score (mkStatsResponse 1 7 (F64.of_tenths 70) 0 3)
  /\ 0 <= F64.mant (average_score (mkStatsResponse 1 7 (F64.of_tenths 70) 0 3))
  /\ 0 <= total_play_time_seconds (mkStatsResponse 1 7 (F64.of_tenths 70) 0 3)
  /\ 0 <= longest_snake (mkStatsResponse 1 7 (F64.of_tenths 70) 0 3)
  /\ (0 < total_games (mkStatsResponse 1 7 (F64.of_tenths 70) 0 3) ->
      1 <= longest_snake (mkStatsResponse 1 7 (F64.of_tenths 70) 0 3)).
Proof.
  apply (stats_are_not_negative
           [PostScore (calm 5) (mkScoreBody (Some 7) None None None); GetStats]).
  reflexivity.
Defined.

(* ===================================================================== *)
(** ** Further properties: the debug representation *)
(* ===================================================================== *)

Section Repr.

Local Open Scope string_scope.

Lemma append_length (a b : string) :
  String.length (a ++ b) = (String.length a + String.length b)%nat.
Proof. induction a as [| x a IH]; simpl; [reflexivity | now rewrite IH]. Qed.

Lemma append_assoc' (a b c : string) : (a ++ b) ++ c = a ++ (b ++ c).
Proof. induction a as [| x a IH]; simpl; [reflexivity | now rewrite IH]. Qed.

Lemma append_inj_l (p a b : string) : p ++ a = p ++ b -> a = b.
Proof.
  induction p as [| x p IH]; simpl; [auto |].
  intros H. inversion H. auto.
Qed.

Lemma append_inj_r (p : string) :
  forall a b : string, a ++ p = b ++ p -> a = b.
Proof.
  induction a as [| x a IH]; intros [| y b] H; simpl in H.
  - reflexivity.
  - apply (f_equal String.length) in H. simpl in H.
    rewrite append_length in H. lia.
  - apply (f_equal String.length) in H. simpl in H.
    rewrite append_length in H. lia.
  - inversion H. f_equal. auto.
Qed.

Lemma lacks_append (c : Ascii.ascii) (a b : string) :
  lacks c (a ++ b) <-> lacks c a /\ lacks c b.
Proof. induction a as [| x a IH]; simpl; [tauto | rewrite IH; tauto]. Qed.

(** A string is cut in one way at the first occurrence of a character. *)
Lemma split_at_first (c : Ascii.ascii) :
  forall d1 d2 r1 r2 : string,
    lacks c d1 -> lacks c d2 ->
    d1 ++ String c r1 = d2 ++ String c r2 -> d1 = d2 /\ r1 = r2.
Proof.
  induction d1 as [| x d1 IH]; intros [| y d2] r1 r2 H1 H2 E; simpl in *.
  - inversion E. auto.
  - inversion E; subst. destruct H2 as [H2 _]. congruence.
  - inversion E; subst. destruct H1 as [H1 _]. congruence.
  - inversion E; subst. destruct H1 as [_ H1], H2 as [_ H2].
    destruct (IH d2 r1 r2 H1 H2 H3) as [-> ->]. auto.
Qed.

(** And in one way at the last occurrence. *)
Lemma split_at_last (c : Ascii.ascii) :
  forall a1 a2 d1 d2 : string,
    lacks c d1 -> lacks c d2 ->
    a1 ++ String c d1 = a2 ++ String c d2 -> a1 = a2 /\ d1 = d2.
Proof.
  induction a1 as [| x a1 IH]; intros [| y a2] d1 d2 H1 H2 E; simpl in *.
  - inversion E. auto.
  - injection E as Ec Ed. rewrite Ed in H1.
    apply lacks_append in H1. simpl in H1.
    destruct H1 as [_ [H1 _]]. now contradiction H1.
  - injection E as Ec Ed. rewrite <- Ed in H2.
    apply lacks_append in H2. simpl in H2.
    destruct H2 as [_ [H2 _]]. now contradiction H2.
  - inversion E; subst.
    destruct (IH a2 d1 d2 H1 H2 H3) as [-> ->]. auto.
Qed.

Lemma string_of_uint_lacks (c : Ascii.ascii) (d : Decimal.uint) :
  c = ","%char \/ c = "="%char -> lacks c (NilEmpty.string_of_uint d).
Proof.
  intros Hc. induction d; simpl; try exact I;
    (split; [destruct Hc as [-> | ->]; discriminate | assumption]).
Qed.

(** The decimal form of an integer has neither a comma nor an equals
    sign. *)
Lemma str_int_lacks (c : Ascii.ascii) (z : Z) :
  c = ","%char \/ c = "="%char -> lacks c (str_int z).
Proof.
  intros Hc. unfold str_int.
  assert (Hu : forall d, lacks c (NilZero.string_of_uint d)).
  { intros d. pose proof (string_of_uint_lacks c d Hc) as H.
    destruct d; try exact H.
    simpl. split; [destruct Hc as [-> | ->]; discriminate | exact I]. }
  destruct (Z.to_int z) as [d | d]; simpl; [apply Hu |].
  split; [destruct Hc as [-> | ->]; discriminate | apply Hu].
Qed.

(** Different integers have different decimal forms. *)
Lemma str_int_inj (z1 z2 : Z) : str_int z1 = str_int z2 -> z1 = z2.
Proof.
  unfold str_int. intros E.
  assert (Hn : forall z, Z.to_int z <> Decimal.Pos Decimal.Nil
                         /\ Z.to_int z <> Decimal.Neg Decimal.Nil).
  { intros [| p | p]; simpl; split; try discriminate;
      intros H; inversion H as [Hp];
      exact (DecimalPos.Unsigned.to_uint_nonnil p Hp). }
  apply (f_equal NilZero.int_of_string) in E.
  rewrite !NilZero.isi in E by apply Hn.
  inversion E as [E']. apply (f_equal Z.of_int) in E'.
  now rewrite !DecimalZ.of_to in E'.
Qed.

(** The representation, cut at the comma behind the id and at the equals
    sign before the score. *)
Lemma Score_repr_cut (r : Score) :
  Score_repr r
  = "<Score(id="
    ++ (str_int (id r)
        ++ String ","
             (" player='"
              ++ ((player_name r ++ "', score")
                  ++ String "=" (str_int (score r) ++ ")>")))).
Proof. unfold Score_repr. now rewrite append_assoc'. Qed.

End Repr.

(** X15.  The debug representation of a row tells its id, its player name
    and its score: two rows with the same representation agree on all
    three, whatever characters the names contain. *)
Theorem Score_repr_identifies :
  forall r1 r2 : Score,
    Score_repr r1 = Score_repr r2 ->
    id r1 = id r2 /\ player_name r1 = player_name r2 /\ score r1 = score r2.
Proof.
  intros r1 r2 E. rewrite !Score_repr_cut in E.
  apply append_inj_l in E.
  apply (split_at_first ","%char) in E;
    try (apply str_int_lacks; now left).
  destruct E as [Eid E]. apply str_int_inj in Eid.
  apply append_inj_l in E.
  apply (split_at_last "="%char) in E;
    try (apply lacks_append; split;
         [apply str_int_lacks; now right | simpl; repeat split; discriminate]).
  destruct E as [En Es].
  apply append_inj_r in En, Es. apply str_int_inj in Es. auto.
Qed.

Lemma Score_repr_identifies_witness :
  id (game 1 "ann" 50) = id (game 1 "ann" 50)
  /\ player_name (game 1 "ann" 50) = player_name (game 1 "ann" 50)
  /\ score (game 1 "ann" 50) = score (game 1 "ann" 50).
Proof.
  apply (Score_repr_identifies (game 1 "ann" 50) (game 1 "ann" 50)).
  reflexivity.
Defined.

(** The representation the docstring of [__repr__] gives. *)
Example Score_repr_sample :
  Score_repr (mkScore 1 "Player" 150 3 0 0)
  = "<Score(id=1, player='Player', score=150)>"%string.
Proof. reflexivity. Qed.

(* ===================================================================== *)
(** ** Further properties: the limit *)
(* ===================================================================== *)




